(** * Monte Carlo integration with OpenMP and GSL VEGAS: a shallow embedding

    The development follows [mcintegration.cpp].  A [double] is a binary64
    value ([float], the kernel's primitive floats, whose operations round to
    nearest even), and every arithmetic operation of the source is one such
    operation (no contraction into a fused multiply-add); [size_t] and
    [unsigned long] are 64-bit unsigned integers, kept as [Z] with the
    wrap-around written out (LP64); an [int] that is never negative in the
    code (a thread number) is a [nat].

    The numeric library (GSL) and the OpenMP runtime are not part of the
    repository.  The integrator [gsl_monte_vegas_integrate] is a variable of
    the section below; the runtime is a record of what the code observes of
    it: the value of [omp_get_max_threads()], the team that runs the parallel
    region and the clock reading each thread takes.  Allocations (the two
    vectors, the generator, the VEGAS state) are taken to succeed. *)

From Stdlib Require Import ZArith Lia Floats Reals Lra.
From stdpp Require Import base list.

Local Open Scope Z_scope.
Set Warnings "-inexact-float".

(** ** Machine integers and conversions *)

(** Conversion to a 64-bit unsigned type ([size_t], [unsigned long],
    [unsigned long long]). *)
Definition wrap64 (z : Z) : Z := z mod 2 ^ 64.

(** Conversion of an integer to [double], correctly rounded. *)
Definition size_t_to_double (n : Z) : float :=
  SF2Prim (binary_normalize prec emax n 0 false).

(** ** Problem constants *)

Definition Dim : Z := 3.
Definition N_MC : Z := 10000000.

Definition Lower_bounds : list float := [0; 0; 0]%float.
Definition Upper_bounds : list float := [1; 1; 1]%float.

Record parameters : Type := { p : float; q : float }.

(** ** Function to be integrated *)

Definition f (x y z : float) (par : parameters) : float :=
  ((x + y + z) * p par + (x * x + y * y + z * z) * q par)%float.

(** The same expression over the real numbers, for the exact value of the
    integral: [p] and [q] are real numbers here, so [1/10] is exact, which
    the binary64 constant [0.1] is not. *)
Definition f_real (x y z p q : R) : R :=
  ((x + y + z) * p + (x * x + y * y + z * z) * q)%R.

(** The expression of [f] and [f_real], over any addition and
    multiplication. *)
Definition f_expr {A : Type} (add mul : A -> A -> A) (x y z p q : A) : A :=
  add (mul (add (add x y) z) p)
      (mul (add (add (mul x x) (mul y y)) (mul z z)) q).

(** Quadratics in one variable and their primitives: what [f_real] is in each
    of its variables. *)
Definition quadratic (c0 c1 c2 : R) (t : R) : R :=
  (c0 + c1 * t + c2 * (t * t))%R.

Definition cubic_primitive (c0 c1 c2 : R) (t : R) : R :=
  (c0 * t + c1 / 2 * (t * t) + c2 / 3 * (t * t * t))%R.

(** ** GSL integrand wrapper

    [k] is the point array the integrator hands over.  The three reads
    [k[0]], [k[1]], [k[2]] are unchecked in the source; a read past the end
    of the array is undefined there and [None] here.  [dim] is not used. *)
Definition integrand (k : list float) (dim : Z) (params : parameters)
  : option float :=
  match k !! 0%nat, k !! 1%nat, k !! 2%nat with
  | Some x, Some y, Some z => Some (f x y z params)
  | _, _, _ => None
  end.

(** ** The interface of the integrator *)

(** [gsl_monte_function]: the callback, its dimension and its parameters. *)
Record gsl_monte_function : Type := {
  gf_f : list float -> Z -> parameters -> option float;
  gf_dim : Z;
  gf_params : parameters
}.

(** What one call of [gsl_monte_vegas_integrate] is given: the function, the
    bounds, the dimension, the number of calls, the generator (an MT19937
    generator freshly set to [vc_seed]) and the VEGAS state (freshly
    allocated for [vc_state_dim] dimensions). *)
Record vegas_call : Type := {
  vc_G : gsl_monte_function;
  vc_xl : list float;
  vc_xu : list float;
  vc_dim : Z;
  vc_calls : Z;
  vc_seed : Z;
  vc_state_dim : Z
}.

(** What the call does: it returns a status, having stored an estimate and
    its error through the two output pointers or not; or the library's error
    handler ends the process. *)
Inductive vegas_reply : Type :=
| VegasReturn (status : Z) (stored : option (float * float))
| VegasAbort.

(** ** The OpenMP runtime as the code observes it *)
Record omp_runtime : Type := {
  (** the value of [omp_get_max_threads()] *)
  omp_get_max_threads : Z;
  (** the thread numbers of the team that runs the parallel region, in the
      order in which the threads' bodies take effect *)
  omp_team : list nat;
  (** [high_resolution_clock::now().time_since_epoch().count()] as read by
      each thread *)
  clock_count : nat -> Z
}.

(** A conforming runtime numbers a team of [W] threads [0 .. W-1]. *)
Definition full_team (rt : omp_runtime) (W : nat) : Prop :=
  omp_team rt ≡ₚ seq 0 W.

(** ** Memory

    The function's view of the caller's objects reached through the pointer
    and reference parameters ([xl], [xu], [par], [result], [error]), and the
    two local vectors of the function.  The fields are objects of their own:
    which doubles of the caller the parameters are bound to, and whether two
    of them are the same double, is the matter of [call_by_reference]
    below. *)
Record memory : Type := {
  xl : list float;
  xu : list float;
  par : parameters;
  result : float;
  error : float;
  results : list float;
  errors : list float
}.

(** ** Outcomes of a run *)
Inductive exec (A : Type) : Type :=
| Done (a : A)
| Undefined          (* undefined behaviour was reached *)
| Aborted.           (* the library ended the process *)
Arguments Done {A} a.
Arguments Undefined {A}.
Arguments Aborted {A}.

Definition bind {A B : Type} (c : exec A) (k : A -> exec B) : exec B :=
  match c with
  | Done a => k a
  | Undefined => Undefined
  | Aborted => Aborted
  end.

Notation "x <- c ;; k" := (bind c (fun x => k))
  (at level 100, c at next level, right associativity).

(** ** Seed of one thread

    [count ^ static_cast<unsigned long>(thread_id + 0x9e3779b97f4a7c15ULL)]:
    the sum is taken in [unsigned long long], the exclusive or in
    [unsigned long]. *)
Definition thread_seed (count : Z) (thread_id : Z) : Z :=
  Z.lxor (wrap64 count) (wrap64 (thread_id + 0x9e3779b97f4a7c15)).

(** [std::accumulate(first, last, init)] over doubles. *)
Definition accumulate (l : list float) (init : float) : float :=
  fold_left PrimFloat.add l init.

(** The loop [for (double err_i : errors) sum_sq_errors += err_i * err_i]. *)
Definition sum_sq (l : list float) (init : float) : float :=
  fold_left (fun s err_i => (s + err_i * err_i)%float) l init.

Section Aggregator.

Variable gsl_monte_vegas_integrate : vegas_call -> vegas_reply.

(** The arguments thread [thread_id] passes to the integrator. *)
Definition vegas_args (rt : omp_runtime) (calls dim num_threads : Z)
    (thread_id : nat) (m : memory) : vegas_call :=
  {| vc_G := {| gf_f := integrand; gf_dim := dim; gf_params := par m |};
     vc_xl := xl m;
     vc_xu := xu m;
     vc_dim := dim;
     vc_calls := calls / num_threads;
     vc_seed := thread_seed (clock_count rt thread_id) (Z.of_nat thread_id);
     vc_state_dim := dim |}.

(** The stores through [&results[thread_id]] and [&errors[thread_id]]. *)
Definition store_slots (thread_id : nat) (stored : option (float * float))
    (m : memory) : memory :=
  match stored with
  | None => m
  | Some (r, e) =>
      {| xl := xl m; xu := xu m; par := par m;
         result := result m; error := error m;
         results := <[thread_id := r]> (results m);
         errors := <[thread_id := e]> (errors m) |}
  end.

(** The body of the parallel region, run by thread [thread_id].  The
    division [calls / num_threads] is undefined for a zero divisor, and so
    is [results[thread_id]] past the end of the vector. *)
Definition worker (rt : omp_runtime) (calls dim num_threads : Z)
    (thread_id : nat) (m : memory) : exec memory :=
  if num_threads =? 0 then Undefined
  else if negb (bool_decide (thread_id < length (results m))%nat
                && bool_decide (thread_id < length (errors m))%nat)
  then Undefined
  else
    match gsl_monte_vegas_integrate
            (vegas_args rt calls dim num_threads thread_id m) with
    | VegasAbort => Aborted
    | VegasReturn _ stored => Done (store_slots thread_id stored m)
    end.

(** [#pragma omp parallel]: every thread of the team runs the body.  The
    bodies share the two vectors only, and each writes the slot of its own
    thread number, so the region is the bodies taking effect one after the
    other, in the order of [team]. *)
Fixpoint omp_parallel (body : nat -> memory -> exec memory)
    (team : list nat) (m : memory) : exec memory :=
  match team with
  | [] => Done m
  | thread_id :: rest => m' <- body thread_id m ;; omp_parallel body rest m'
  end.

(** [size_t num_threads = omp_get_max_threads();] *)
Definition num_threads_of (rt : omp_runtime) : Z :=
  wrap64 (omp_get_max_threads rt).

Definition parallel_monte_carlo_integration (rt : omp_runtime)
    (calls dim : Z) (m : memory) : exec memory :=
  let num_threads := num_threads_of rt in
  let m0 :=
    {| xl := xl m; xu := xu m; par := par m;
       result := result m; error := error m;
       results := replicate (Z.to_nat num_threads) 0%float;
       errors := replicate (Z.to_nat num_threads) 0%float |} in
  m1 <- omp_parallel (worker rt calls dim num_threads) (omp_team rt) m0 ;;
  let result' :=
    (accumulate (results m1) 0 / size_t_to_double num_threads)%float in
  let sum_sq_errors := sum_sq (errors m1) 0%float in
  let error' :=
    (PrimFloat.sqrt sum_sq_errors / size_t_to_double num_threads)%float in
  Done {| xl := xl m1; xu := xu m1; par := par m1;
          result := result'; error := error';
          results := results m1; errors := errors m1 |}.

(** The body of [main] up to the call (printing and timing left out). *)
Definition main (rt : omp_runtime) : exec memory :=
  parallel_monte_carlo_integration rt (wrap64 N_MC) Dim
    {| xl := Lower_bounds; xu := Upper_bounds;
       par := {| p := 0.1; q := 0.1 |};
       result := 0; error := 0; results := []; errors := [] |}.

End Aggregator.

(** ** How a call ends for its caller

    The source declares no error value: the function is [void], throws
    nothing and reads no status.  The four failure kinds are the ones the
    specification names; [Fails] is what a call signalling one of them would
    be.  [integrate] is the specification's entry point as the source
    provides it: the call of [parallel_monte_carlo_integration] on fresh
    output variables, read back through [result] and [error]. *)
Inductive failure : Type :=
| InvalidDimension
| InvalidDomain
| NoWorkers
| WorkerFailure.

Inductive call_result : Type :=
| Returns (mean err : float)
| Fails (k : failure)
| EndsUndefined
| EndsAborted.

Definition caller_memory (xl xu : list float) (par : parameters) : memory :=
  {| xl := xl; xu := xu; par := par;
     result := 0; error := 0; results := []; errors := [] |}.

Definition integrate (gsl : vegas_call -> vegas_reply) (rt : omp_runtime)
    (calls : Z) (xl xu : list float) (dim : Z) (par : parameters)
  : call_result :=
  match parallel_monte_carlo_integration gsl rt calls dim
          (caller_memory xl xu par) with
  | Done m => Returns (result m) (error m)
  | Undefined => EndsUndefined
  | Aborted => EndsAborted
  end.

(** ** The caller's doubles

    [xl] and [xu] are pointers, and [par], [result] and [error] references:
    the caller binds them to doubles of its own, and nothing in the
    signature keeps [result] and [error] apart from each other, from a
    component of [xl] or [xu], or from a field of [par].  The caller's
    doubles are a list, addressed by position; [references] gives the
    addresses the arguments of a call are bound to ([par] is its field [p],
    followed by its field [q]). *)
Record references : Type := {
  at_xl : nat;
  at_xu : nat;
  at_par : nat;
  at_result : nat;
  at_error : nat
}.

(** The [n] doubles from the address [a] on, as far as they exist. *)
Definition load_array (h : list float) (a n : nat) : list float :=
  take n (drop a h).

Definition load_parameters (h : list float) (a : nat) : option parameters :=
  match h !! a, h !! S a with
  | Some p0, Some q0 => Some {| p := p0; q := q0 |}
  | _, _ => None
  end.

Definition store_parameters (a : nat) (par : parameters) (h : list float)
  : list float :=
  <[S a := q par]> (<[a := p par]> h).

(** The address [a] is none of the [n] addresses from [b] on. *)
Definition outside (a b n : nat) : Prop := (a < b \/ b + n <= a)%nat.

(** The address [a] is no component of [xl] or [xu] and no field of [par]. *)
Definition apart_from_inputs (a : nat) (r : references) (dim : Z) : Prop :=
  outside a (at_xl r) (Z.to_nat dim)
  /\ outside a (at_xu r) (Z.to_nat dim)
  /\ outside a (at_par r) 2.

(** The function's view of the objects its parameters are bound to.  A
    reference to no object is undefined. *)
Definition caller_view (dim : Z) (r : references) (h : list float)
  : option memory :=
  match load_parameters h (at_par r), h !! at_result r, h !! at_error r with
  | Some par0, Some result0, Some error0 =>
      Some {| xl := load_array h (at_xl r) (Z.to_nat dim);
              xu := load_array h (at_xu r) (Z.to_nat dim);
              par := par0; result := result0; error := error0;
              results := []; errors := [] |}
  | _, _, _ => None
  end.

(** The call as its caller sees it.  The function works on its view of the
    objects; what the view holds at the end of the parallel region is what
    the objects hold then, and the two assignments follow: [result = ...]
    first, [error = ...] second, each through its reference. *)
Definition call_by_reference (gsl : vegas_call -> vegas_reply)
    (rt : omp_runtime) (calls dim : Z) (r : references) (h : list float)
  : exec (list float) :=
  match caller_view dim r h with
  | Some m =>
      m1 <- parallel_monte_carlo_integration gsl rt calls dim m ;;
      let h1 :=
        store_parameters (at_par r) (par m1)
          (list_inserts (at_xu r) (xu m1)
             (list_inserts (at_xl r) (xl m1) h)) in
      Done (<[at_error r := error m1]> (<[at_result r := result m1]> h1))
  | None => Undefined
  end.

(** The doubles of [main]: [Lower_bounds], [Upper_bounds], [par], [result]
    and [error], in this order; the references of its call; and the same
    call with [result] bound to [Lower_bounds[0]]. *)
Definition main_doubles : list float :=
  [0; 0; 0; 1; 1; 1; 0.1; 0.1; 0; 0]%float.

Definition main_references : references :=
  {| at_xl := 0; at_xu := 3; at_par := 6; at_result := 8; at_error := 9 |}.

Definition result_in_xl : references :=
  {| at_xl := 0; at_xu := 3; at_par := 6; at_result := 0; at_error := 9 |}.

(** ** The combination rule in the specification's words

    [combined mean = (m1 + ... + mW) / W] and
    [combined error = sqrt (e1^2 + ... + eW^2) / W], the sums taken from
    zero in the order of the worker numbers, every operation a binary64
    operation.  (A sum taken from zero and the bare sum differ in one case
    only: when every term is [-0] the first is [+0].) *)
Definition float_sum (l : list float) : float :=
  fold_left PrimFloat.add l 0%float.

Definition arithmetic_mean (ms : list float) (W : Z) : float :=
  (float_sum ms / size_t_to_double W)%float.

Definition root_sum_squares_over_W (es : list float) (W : Z) : float :=
  (PrimFloat.sqrt (float_sum (map (fun e => e * e) es))
   / size_t_to_double W)%float.

(** Some lower bound exceeds its paired upper bound. *)
Definition inverted_domain (lower upper : list float) : bool :=
  existsb (fun lu => (snd lu <? fst lu)%float) (zip lower upper).

(** The declared dimension is not the number of components of a bound
    vector. *)
Definition dimension_mismatch (dim : Z) (lower upper : list float) : bool :=
  negb ((dim =? Z.of_nat (length lower)) && (dim =? Z.of_nat (length upper))).

(** ** Proof devices *)

(** The stores of one thread that got the reply [reply thread_id], and of a
    team of them. *)
Definition thread_writes (reply : nat -> vegas_reply) (m : memory)
    (thread_id : nat) : memory :=
  match reply thread_id with
  | VegasReturn _ stored => store_slots thread_id stored m
  | VegasAbort => m
  end.

Definition region_writes (reply : nat -> vegas_reply) (team : list nat)
    (m : memory) : memory :=
  fold_left (thread_writes reply) team m.

Definition is_abort (r : vegas_reply) : bool :=
  match r with VegasAbort => true | VegasReturn _ _ => false end.

(** The reply thread [thread_id] gets from the integrator [gsl]. *)
Definition reply_of (gsl : vegas_call -> vegas_reply) (rt : omp_runtime)
    (calls dim : Z) (m : memory) (thread_id : nat) : vegas_reply :=
  gsl (vegas_args rt calls dim (num_threads_of rt) thread_id m).

(** The memory the function leaves once the slots hold [rs] and [es]. *)
Definition combined (m : memory) (rs es : list float) (num_threads : Z)
  : memory :=
  {| xl := xl m; xu := xu m; par := par m;
     result := (accumulate rs 0 / size_t_to_double num_threads)%float;
     error :=
       (PrimFloat.sqrt (sum_sq es 0) / size_t_to_double num_threads)%float;
     results := rs; errors := es |}.

(** What the threads [0 .. W-1] had stored for them, in that order. *)
Definition stored_replies (gsl : vegas_call -> vegas_reply) (rt : omp_runtime)
    (calls dim : Z) (m : memory) (W : nat) : list (float * float) :=
  omap (fun i =>
          match reply_of gsl rt calls dim m i with
          | VegasReturn _ stored => stored
          | VegasAbort => None
          end)
       (seq 0 W).

(** The numbers of calls the threads of the team pass to the integrator. *)
Definition budgets (rt : omp_runtime) (calls dim : Z) (m : memory) : list Z :=
  (fun thread_id =>
     vc_calls (vegas_args rt calls dim (num_threads_of rt) thread_id m))
    <$> omp_team rt.

(** What a slot holds after a thread got the reply [r], given what it held. *)
Definition updated (pick : float * float -> float) (r : vegas_reply)
    (old : float) : float :=
  match r with
  | VegasReturn _ (Some re) => pick re
  | _ => old
  end.

(** The vector of [W] slots, zero at first, after the threads of [team] got
    the replies [reply]. *)
Definition gathered (pick : float * float -> float)
    (reply : nat -> vegas_reply) (team : list nat) (W : nat) : list float :=
  (fun i => if bool_decide (i ∈ team) then updated pick (reply i) 0%float
            else 0%float) <$> seq 0 W.

(** ** A stand-in integrator for the examples

    The theorems below hold for every integrator.  Their instances at
    concrete inputs need one that computes: this one takes a single sample,
    at a point fixed by the seed, and scales it by the volume of the box.
    Like the library's entry check it rejects a box with some upper bound not
    above its lower bound, and a dimension other than the state's, with the
    status [GSL_EINVAL] and without storing anything; with
    [abort_on_error] it ends the process instead, as the library's default
    error handler does. *)
Definition GSL_SUCCESS : Z := 0.
Definition GSL_EINVAL : Z := 4.

Definition bounds_ok (dim : nat) (lower upper : list float) : bool :=
  forallb
    (fun i =>
       match lower !! i, upper !! i with
       | Some l, Some u => (l <? u)%float
       | _, _ => false
       end)
    (seq 0 dim).

Definition sample_point (seed : Z) (dim : nat) (lower upper : list float)
  : list float :=
  let t := (size_t_to_double (seed mod 1024) / 1024)%float in
  zip_with (fun l u => (l + (u - l) * t)%float)
    (take dim lower) (take dim upper).

Definition box_volume (dim : nat) (lower upper : list float) : float :=
  fold_left PrimFloat.mul
    (zip_with (fun l u => (u - l)%float) (take dim lower) (take dim upper))
    1%float.

Definition one_sample_vegas (abort_on_error : bool) (c : vegas_call)
  : vegas_reply :=
  let d := Z.to_nat (vc_dim c) in
  if (vc_dim c =? vc_state_dim c) && bounds_ok d (vc_xl c) (vc_xu c) then
    match gf_f (vc_G c) (sample_point (vc_seed c) d (vc_xl c) (vc_xu c))
            (gf_dim (vc_G c)) (gf_params (vc_G c)) with
    | Some v =>
        let est := (v * box_volume d (vc_xl c) (vc_xu c))%float in
        VegasReturn GSL_SUCCESS
          (Some (est,
                 (PrimFloat.abs est
                  / PrimFloat.sqrt (size_t_to_double (vc_calls c)))%float))
    | None => VegasAbort
    end
  else if abort_on_error then VegasAbort
  else VegasReturn GSL_EINVAL None.

(** Example runtimes: two and four threads, bodies taking effect out of
    order, clock readings a few ticks apart. *)
Definition rt2 : omp_runtime :=
  {| omp_get_max_threads := 2;
     omp_team := [1; 0]%nat;
     clock_count :=
       fun thread_id => 1700000000000000000 + 3 * Z.of_nat thread_id |}.

Definition rt4 : omp_runtime :=
  {| omp_get_max_threads := 4;
     omp_team := [2; 0; 3; 1]%nat;
     clock_count :=
       fun thread_id => 1700000000000000000 + 40 * Z.of_nat thread_id |}.

(** The team of [rt4] storing in the order of the thread numbers. *)
Definition rt4_in_order : omp_runtime :=
  {| omp_get_max_threads := 4;
     omp_team := [0; 1; 2; 3]%nat;
     clock_count := clock_count rt4 |}.

(** Four threads allowed, a team of two. *)
Definition rt4_team_of_two : omp_runtime :=
  {| omp_get_max_threads := 4;
     omp_team := [1; 0]%nat;
     clock_count := clock_count rt4 |}.

(** Runtimes that allow no thread (OpenMP rules them out): one in which the
    encountering thread still runs the region, one in which nothing does. *)
Definition rt0_one_thread : omp_runtime :=
  {| omp_get_max_threads := 0;
     omp_team := [0]%nat;
     clock_count := fun _ => 1700000000000000000 |}.

Definition rt0_no_thread : omp_runtime :=
  {| omp_get_max_threads := 0;
     omp_team := [];
     clock_count := fun _ => 1700000000000000000 |}.

Definition par01 : parameters := {| p := 0.1; q := 0.1 |}.

Definition unit_cube : memory := caller_memory Lower_bounds Upper_bounds par01.

(** ** The sampler's check of the domain *)

(** Modelled from the spec: how a sampling run ends.  The sampler is
    [gsl_monte_vegas_integrate], a function of an external library that is
    not under src/; the specification (section 4.1) has it give an estimate
    with its error, or fail with one of the failure kinds. *)
Inductive sampler_outcome : Type :=
| Estimate (mean err : float)
| SamplerFails (k : failure).

(** Modelled from the spec: the sampler's check of the domain, missing from
    src/ with the sampler.  Section 4.1: "If any lower bound exceeds its
    paired upper bound, fails with InvalidDomain", and section 8: "before any
    sampling occurs".  The sampling itself is [sampling], left open. *)
Definition adaptive_sampler (sampling : vegas_call -> sampler_outcome)
    (c : vegas_call) : sampler_outcome :=
  if inverted_domain (vc_xl c) (vc_xu c) then SamplerFails InvalidDomain
  else sampling c.

(** Modelled from the spec: what the calling thread gets from such a
    sampler.  Section 7: a failure is "surfaced to the caller as an immediate
    failure of the whole integrate call"; in the library, which is not under
    src/, the error handler ends the process.  An estimate is stored through
    the two output pointers. *)
Definition sampler_reply (sampler : vegas_call -> sampler_outcome)
    (c : vegas_call) : vegas_reply :=
  match sampler c with
  | Estimate mean err => VegasReturn GSL_SUCCESS (Some (mean, err))
  | SamplerFails _ => VegasAbort
  end.

(** A sampling that gives the same estimate whatever it is asked. *)
Definition constant_sampling (c : vegas_call) : sampler_outcome :=
  Estimate 0.25 0.001.

(** ** Devices for the further properties *)

(** A reply without its status: whether the call returned, and what it
    stored. *)
Definition drop_status (r : vegas_reply) : option (option (float * float)) :=
  match r with
  | VegasReturn _ stored => Some stored
  | VegasAbort => None
  end.

(** An integrator that reports the status [s] whatever [gsl] reported. *)
Definition with_status (s : Z) (gsl : vegas_call -> vegas_reply)
    (c : vegas_call) : vegas_reply :=
  match gsl c with
  | VegasReturn _ stored => VegasReturn s stored
  | VegasAbort => VegasAbort
  end.

(** Two memories that differ at most in the two outputs. *)
Definition same_but_outputs (m m' : memory) : Prop :=
  xl m = xl m' /\ xu m = xu m' /\ par m = par m'
  /\ results m = results m' /\ errors m = errors m'.

Definition same_run_but_outputs (a b : exec memory) : Prop :=
  match a, b with
  | Done m, Done m' => same_but_outputs m m'
  | Undefined, Undefined => True
  | Aborted, Aborted => True
  | _, _ => False
  end.

(** The same runtime with another team. *)
Definition with_team (rt : omp_runtime) (team : list nat) : omp_runtime :=
  {| omp_get_max_threads := omp_get_max_threads rt;
     omp_team := team;
     clock_count := clock_count rt |}.

(** Two threads allowed, and a team with the thread number 2. *)
Definition rt2_thread_beyond : omp_runtime :=
  {| omp_get_max_threads := 2;
     omp_team := [0; 2]%nat;
     clock_count := clock_count rt2 |}.

(** A binary64 value, as the specification of the primitive floats sees it,
    that is NaN or has a clear sign bit; and one that is NaN or not below
    zero (this one admits [-0]). *)
Definition sf_not_negative (x : spec_float) : bool :=
  match x with
  | S754_nan => true
  | S754_zero s | S754_infinity s | S754_finite s _ _ => negb s
  end.

Definition not_negative (x : float) : bool := sf_not_negative (Prim2SF x).

Definition sf_not_below_zero (x : spec_float) : bool :=
  match x with
  | S754_nan | S754_zero _ => true
  | S754_infinity s | S754_finite s _ _ => negb s
  end.

(** The unit cube once the two vectors of four slots are allocated. *)
Definition unit_cube_slots : memory :=
  {| xl := Lower_bounds; xu := Upper_bounds; par := par01;
     result := 0; error := 0;
     results := replicate 4 0%float; errors := replicate 4 0%float |}.

(** The unit cube with a parameter that is NaN. *)
Definition unit_cube_nan : memory :=
  caller_memory Lower_bounds Upper_bounds {| p := nan; q := 0.1 |}.

(** The unit cube with other contents in the outputs and the vectors, and
    the inverted domain of the specification's example. *)
Definition unit_cube_used : memory :=
  {| xl := Lower_bounds; xu := Upper_bounds; par := par01;
     result := 7; error := 9;
     results := [1; 2]%float; errors := [3]%float |}.

Definition inverted_cube : memory :=
  caller_memory [0; 1; 0]%float [1; 0; 1]%float par01.

(** Small teams are permutations of their thread numbers. *)
Ltac small_NoDup :=
  repeat (apply NoDup_cons; split;
          [rewrite ?elem_of_cons, elem_of_nil; lia|]);
  apply NoDup_nil; exact I.

Ltac small_team :=
  cbn; apply NoDup_Permutation;
  [small_NoDup | small_NoDup
  | intros ?; rewrite !elem_of_cons, !elem_of_nil; lia].

(** The lookup of slot [i] of the vector [l] across the stores of a thread. *)
Ltac thread_slot l i :=
  simpl; rewrite ?list_lookup_insert;
  let E := fresh "E" in
  destruct (l !! i) eqn:E; simpl;
  [ try (apply lookup_lt_Some in E);
    repeat case_decide; repeat case_bool_decide; subst; simpl;
    try reflexivity; try lia; try tauto
  | try (case_decide; [apply lookup_ge_None in E; lia|]); reflexivity ].

(** The lookup of slot [i] across the stores of a team, by induction on the
    team; [step] is the lemma for one thread, [idem] that a store made
    twice is the store made once. *)
Ltac team_slot step idem l i team t :=
  rewrite step; destruct (l !! i); simpl; [f_equal|reflexivity];
  rewrite (bool_decide_ext _ _ (elem_of_cons team i t));
  repeat case_bool_decide; subst;
  rewrite ?idem; try reflexivity; exfalso; tauto.

(** * Facts about the embedding *)

Section AggregatorFacts.

Variable gsl : vegas_call -> vegas_reply.

(** ** The stores of the threads *)

Lemma store_slots_caller thread_id stored m :
  xl (store_slots thread_id stored m) = xl m
  /\ xu (store_slots thread_id stored m) = xu m
  /\ par (store_slots thread_id stored m) = par m
  /\ result (store_slots thread_id stored m) = result m
  /\ error (store_slots thread_id stored m) = error m.
Proof. destruct stored as [[r e]|]; simpl; auto. Qed.

Lemma store_slots_lengths thread_id stored m :
  length (results (store_slots thread_id stored m)) = length (results m)
  /\ length (errors (store_slots thread_id stored m)) = length (errors m).
Proof.
  destruct stored as [[r e]|]; simpl; rewrite ?length_insert; auto.
Qed.

Lemma vegas_args_caller rt calls dim num_threads thread_id m m' :
  xl m' = xl m -> xu m' = xu m -> par m' = par m ->
  vegas_args rt calls dim num_threads thread_id m'
  = vegas_args rt calls dim num_threads thread_id m.
Proof. unfold vegas_args; intros -> -> ->; reflexivity. Qed.

Section Region.

Variable reply : nat -> vegas_reply.

Lemma region_writes_cons thread_id team m :
  region_writes reply (thread_id :: team) m
  = region_writes reply team (thread_writes reply m thread_id).
Proof. reflexivity. Qed.

Lemma thread_writes_caller m thread_id :
  xl (thread_writes reply m thread_id) = xl m
  /\ xu (thread_writes reply m thread_id) = xu m
  /\ par (thread_writes reply m thread_id) = par m
  /\ result (thread_writes reply m thread_id) = result m
  /\ error (thread_writes reply m thread_id) = error m.
Proof.
  unfold thread_writes; destruct (reply thread_id);
    auto using store_slots_caller.
Qed.

Lemma thread_writes_lengths m thread_id :
  length (results (thread_writes reply m thread_id)) = length (results m)
  /\ length (errors (thread_writes reply m thread_id)) = length (errors m).
Proof.
  unfold thread_writes; destruct (reply thread_id);
    auto using store_slots_lengths.
Qed.

Lemma region_writes_caller team : forall m,
  xl (region_writes reply team m) = xl m
  /\ xu (region_writes reply team m) = xu m
  /\ par (region_writes reply team m) = par m
  /\ result (region_writes reply team m) = result m
  /\ error (region_writes reply team m) = error m.
Proof.
  induction team as [|t team IH]; intros m; [simpl; auto|].
  rewrite region_writes_cons.
  destruct (IH (thread_writes reply m t)) as (-> & -> & -> & -> & ->).
  apply thread_writes_caller.
Qed.

Lemma updated_idem pick r old :
  updated pick r (updated pick r old) = updated pick r old.
Proof. destruct r as [s [re|]|]; reflexivity. Qed.

Lemma thread_writes_results m t i :
  results (thread_writes reply m t) !! i
  = (fun old => if bool_decide (i = t) then updated fst (reply t) old
                else old) <$> results m !! i.
Proof.
  unfold thread_writes, updated.
  destruct (reply t) as [s [[r e]|]|]; thread_slot (results m) i.
Qed.

Lemma thread_writes_errors m t i :
  errors (thread_writes reply m t) !! i
  = (fun old => if bool_decide (i = t) then updated snd (reply t) old
                else old) <$> errors m !! i.
Proof.
  unfold thread_writes, updated.
  destruct (reply t) as [s [[r e]|]|]; thread_slot (errors m) i.
Qed.

Lemma region_writes_results team : forall m i,
  results (region_writes reply team m) !! i
  = (fun old => if bool_decide (i ∈ team) then updated fst (reply i) old
                else old) <$> results m !! i.
Proof.
  induction team as [|t team IH]; intros m i.
  - simpl. destruct (results m !! i); reflexivity.
  - rewrite region_writes_cons, IH.
    team_slot thread_writes_results updated_idem (results m) i team t.
Qed.

Lemma region_writes_errors team : forall m i,
  errors (region_writes reply team m) !! i
  = (fun old => if bool_decide (i ∈ team) then updated snd (reply i) old
                else old) <$> errors m !! i.
Proof.
  induction team as [|t team IH]; intros m i.
  - simpl. destruct (errors m !! i); reflexivity.
  - rewrite region_writes_cons, IH.
    team_slot thread_writes_errors updated_idem (errors m) i team t.
Qed.

(** From vectors of [W] zeros the team leaves the gathered vectors. *)
Lemma region_writes_gathered team W m :
  results m = replicate W 0%float ->
  errors m = replicate W 0%float ->
  results (region_writes reply team m) = gathered fst reply team W
  /\ errors (region_writes reply team m) = gathered snd reply team W.
Proof.
  intros Hr He; split; apply list_eq; intros i; unfold gathered;
    rewrite ?region_writes_results, ?region_writes_errors, ?Hr, ?He,
      list_lookup_fmap;
    destruct (decide (i < W)%nat) as [Hi|Hi].
  - rewrite lookup_replicate_2, lookup_seq_lt by lia. reflexivity.
  - rewrite (proj1 (lookup_replicate_None _ _ _)), lookup_seq_ge by lia.
    reflexivity.
  - rewrite lookup_replicate_2, lookup_seq_lt by lia. reflexivity.
  - rewrite (proj1 (lookup_replicate_None _ _ _)), lookup_seq_ge by lia.
    reflexivity.
Qed.

End Region.

(** The gathered vector depends on the team only as a set, and on the
    replies only at its members. *)
Lemma gathered_ext pick reply reply' team team' W :
  (forall i, i ∈ team <-> i ∈ team') ->
  (forall i, i ∈ team -> reply i = reply' i) ->
  gathered pick reply team W = gathered pick reply' team' W.
Proof.
  intros Hteam Hreply. unfold gathered.
  apply list_fmap_ext; intros _ i _.
  rewrite <- (bool_decide_ext _ _ (Hteam i)).
  case_bool_decide; [rewrite Hreply by assumption|]; reflexivity.
Qed.

(** A full team fills every slot with its thread's reply. *)
Lemma gathered_full pick reply team W :
  team ≡ₚ seq 0 W ->
  gathered pick reply team W
  = (fun i => updated pick (reply i) 0%float) <$> seq 0 W.
Proof.
  intros Hteam. unfold gathered.
  apply list_eq; intros i. rewrite !list_lookup_fmap.
  destruct (seq 0 W !! i) as [j|] eqn:E; simpl; [|reflexivity].
  apply lookup_seq in E as [-> Hi].
  rewrite bool_decide_eq_true_2; [reflexivity|].
  rewrite Hteam. apply elem_of_seq. lia.
Qed.

(** ** The parallel region *)

Lemma worker_caller rt calls dim n thread_id m m' :
  worker gsl rt calls dim n thread_id m = Done m' ->
  xl m' = xl m /\ xu m' = xu m /\ par m' = par m
  /\ result m' = result m /\ error m' = error m.
Proof.
  unfold worker. destruct (n =? 0); [discriminate|].
  destruct (negb _); [discriminate|].
  destruct (gsl _) as [s stored|]; [|discriminate].
  intros [= <-]. apply store_slots_caller.
Qed.

Lemma omp_parallel_caller rt calls dim n team : forall m m',
  omp_parallel (worker gsl rt calls dim n) team m = Done m' ->
  xl m' = xl m /\ xu m' = xu m /\ par m' = par m
  /\ result m' = result m /\ error m' = error m.
Proof.
  induction team as [|t team IH]; intros m m'; simpl.
  - intros [= <-]. auto.
  - destruct (worker gsl rt calls dim n t m) as [m1| |] eqn:E;
      simpl; try discriminate.
    intros H. apply IH in H as (-> & -> & -> & -> & ->).
    eapply worker_caller; eassumption.
Qed.

(** With a non-zero divisor and every thread number inside the vectors,
    the region ends the process if some integrator call does, and leaves
    the stores of the team otherwise. *)
Lemma omp_parallel_worker rt calls dim m0 team : forall m,
  num_threads_of rt <> 0 ->
  xl m = xl m0 -> xu m = xu m0 -> par m = par m0 ->
  Forall (fun t => (t < length (results m))%nat
                   /\ (t < length (errors m))%nat) team ->
  omp_parallel (worker gsl rt calls dim (num_threads_of rt)) team m
  = if existsb (fun t => is_abort (reply_of gsl rt calls dim m0 t)) team
    then Aborted
    else Done (region_writes (reply_of gsl rt calls dim m0) team m).
Proof.
  induction team as [|t team IH]; intros m Hn Hxl Hxu Hpar Hin;
    [reflexivity|].
  apply Forall_cons in Hin as [[Hr He] Hin].
  cbn [omp_parallel existsb]. unfold worker at 1.
  rewrite (proj2 (Z.eqb_neq _ _) Hn).
  rewrite !bool_decide_eq_true_2 by assumption. cbn [andb negb].
  rewrite (vegas_args_caller rt calls dim (num_threads_of rt) t m0 m)
    by assumption.
  change (gsl (vegas_args rt calls dim (num_threads_of rt) t m0))
    with (reply_of gsl rt calls dim m0 t).
  rewrite region_writes_cons. unfold thread_writes at 1.
  destruct (reply_of gsl rt calls dim m0 t) as [s stored|]; [|reflexivity].
  cbn [bind is_abort orb].
  destruct (store_slots_caller t stored m) as (E1 & E2 & E3 & _).
  destruct (store_slots_lengths t stored m) as (L1 & L2).
  apply IH; try congruence.
  rewrite L1, L2. assumption.
Qed.

(** Inside the vectors and with a non-zero divisor, the body of a thread is
    its integrator call on [vegas_args], followed by the stores. *)
Lemma worker_runs_integrator rt calls dim n thread_id m :
  n <> 0 ->
  (thread_id < length (results m))%nat ->
  (thread_id < length (errors m))%nat ->
  worker gsl rt calls dim n thread_id m
  = match gsl (vegas_args rt calls dim n thread_id m) with
    | VegasAbort => Aborted
    | VegasReturn _ stored => Done (store_slots thread_id stored m)
    end.
Proof.
  intros Hn Hr He. unfold worker.
  rewrite (proj2 (Z.eqb_neq _ _) Hn), !bool_decide_eq_true_2 by assumption.
  reflexivity.
Qed.

(** ** The whole call *)

(** [main] is the call on the unit cube with [p = q = 0.1] and the budget
    [N_MC]. *)
Lemma main_call rt :
  main gsl rt
  = parallel_monte_carlo_integration gsl rt 10000000 3
      (caller_memory [0; 0; 0]%float [1; 1; 1]%float
         {| p := 0.1; q := 0.1 |}).
Proof. reflexivity. Qed.

Lemma existsb_members {A} (g g' : A -> bool) (l l' : list A) :
  (forall i, i ∈ l <-> i ∈ l') ->
  (forall i, i ∈ l -> g i = g' i) ->
  existsb g l = existsb g' l'.
Proof.
  intros Hl Hg. apply eq_true_iff_eq. rewrite !existsb_exists.
  split; intros (i & Hi & Hgi); exists i.
  - apply list_elem_of_In in Hi. split.
    + apply list_elem_of_In, Hl, Hi.
    + rewrite <- Hg; assumption.
  - apply list_elem_of_In in Hi. apply Hl in Hi. split.
    + apply list_elem_of_In, Hi.
    + rewrite Hg; assumption.
Qed.

Lemma existsb_none {A} (g : A -> bool) (l : list A) :
  (forall i, i ∈ l -> g i = false) -> existsb g l = false.
Proof.
  intros Hg. induction l as [|a l IH]; [reflexivity|].
  simpl. rewrite Hg by apply list_elem_of_here.
  apply IH. intros i Hi. apply Hg. apply list_elem_of_further, Hi.
Qed.

(** A call with [W >= 1] threads allowed and a team numbered below [W]. *)
Lemma pmci_bounded rt calls dim m (W : nat) :
  num_threads_of rt = Z.of_nat W -> W <> 0%nat ->
  Forall (fun t => (t < W)%nat) (omp_team rt) ->
  parallel_monte_carlo_integration gsl rt calls dim m
  = if existsb (fun t => is_abort (reply_of gsl rt calls dim m t))
         (omp_team rt)
    then Aborted
    else Done (combined m
                 (gathered fst (reply_of gsl rt calls dim m) (omp_team rt) W)
                 (gathered snd (reply_of gsl rt calls dim m) (omp_team rt) W)
                 (Z.of_nat W)).
Proof.
  intros HW H0 Hteam. unfold parallel_monte_carlo_integration.
  rewrite (omp_parallel_worker rt calls dim m); try reflexivity.
  - destruct (existsb _ _); [reflexivity|]. cbn [bind].
    rewrite HW, Nat2Z.id.
    match goal with |- context [region_writes ?r ?t ?m0] =>
      destruct (region_writes_gathered r t W m0 eq_refl eq_refl) as [-> ->];
      destruct (region_writes_caller r t m0) as (-> & -> & -> & _)
    end.
    reflexivity.
  - rewrite HW. lia.
  - cbn [results errors]. rewrite HW, Nat2Z.id, length_replicate.
    eapply Forall_impl; [exact Hteam|]. simpl. auto.
Qed.

(** A call with no thread allowed: a thread that enters the region divides
    by zero; with none entering, the sums of no slots are divided by
    zero. *)
Lemma pmci_zero rt calls dim m :
  num_threads_of rt = 0 ->
  parallel_monte_carlo_integration gsl rt calls dim m
  = match omp_team rt with
    | [] => Done (combined m [] [] 0)
    | _ :: _ => Undefined
    end.
Proof.
  intros HW. unfold parallel_monte_carlo_integration. rewrite HW.
  destruct (omp_team rt) as [|t team]; reflexivity.
Qed.

Lemma combined_zero m :
  result (combined m [] [] 0) = nan /\ error (combined m [] [] 0) = nan.
Proof. split; reflexivity. Qed.

Lemma full_team_bounded rt W :
  full_team rt W -> Forall (fun t => (t < W)%nat) (omp_team rt).
Proof.
  unfold full_team. intros H. apply Forall_forall. intros t Ht.
  rewrite H in Ht. apply elem_of_seq in Ht. lia.
Qed.

Lemma full_team_member rt W t :
  full_team rt W -> t ∈ omp_team rt <-> (t < W)%nat.
Proof.
  unfold full_team. intros ->. rewrite elem_of_seq. lia.
Qed.

(** The loop over the errors sums their squares from its start value. *)
Lemma sum_sq_map l : forall init,
  sum_sq l init
  = fold_left PrimFloat.add (map (fun e => (e * e)%float) l) init.
Proof.
  induction l as [|e l IH]; intros init; [reflexivity|].
  simpl. apply IH.
Qed.

End AggregatorFacts.

(** * The combination rule *)

(** C1.  For every worker count [W >= 1] and every list of [W] worker results
    [(m1,e1), ..., (mW,eW)] the call returns, its mean is the arithmetic mean
    [(m1 + ... + mW) / W] of the worker means and its error is
    [sqrt (e1^2 + ... + eW^2) / W]; no weight enters either.  The workers are
    the threads [0 .. W-1] of the team, whatever the order in which they
    store. *)
Theorem combination_rule gsl rt calls dim m (ws : list (float * float)) :
  (1 <= length ws)%nat ->
  num_threads_of rt = Z.of_nat (length ws) ->
  full_team rt (length ws) ->
  (forall i w, ws !! i = Some w ->
     exists status,
       reply_of gsl rt calls dim m i = VegasReturn status (Some w)) ->
  exists m',
    parallel_monte_carlo_integration gsl rt calls dim m = Done m'
    /\ result m' = arithmetic_mean (ws.*1) (Z.of_nat (length ws))
    /\ error m' = root_sum_squares_over_W (ws.*2) (Z.of_nat (length ws)).
Proof.
  intros HW Hn Hteam Hws.
  assert (Hreply : forall i, i ∈ omp_team rt ->
            exists status w, ws !! i = Some w
              /\ reply_of gsl rt calls dim m i = VegasReturn status (Some w)).
  { intros i Hi. apply (full_team_member _ _ _ Hteam) in Hi.
    destruct (lookup_lt_is_Some_2 ws i Hi) as [w Hw].
    destruct (Hws i w Hw) as [status Hr]. eauto. }
  rewrite (pmci_bounded gsl rt calls dim m (length ws))
    by (auto using full_team_bounded; lia).
  rewrite existsb_none.
  2:{ intros i Hi. destruct (Hreply i Hi) as (status & w & _ & ->).
      reflexivity. }
  eexists; split; [reflexivity|].
  rewrite !gathered_full by exact Hteam.
  assert (Hg : forall pick,
            (fun i => updated pick (reply_of gsl rt calls dim m i) 0%float)
              <$> seq 0 (length ws) = pick <$> ws).
  { intros pick. apply list_eq; intros i. rewrite !list_lookup_fmap.
    destruct (decide (i < length ws)%nat) as [Hi|Hi].
    - rewrite lookup_seq_lt by assumption. simpl.
      destruct (Hreply i) as (status & w & -> & ->);
        [apply (full_team_member _ _ _ Hteam), Hi|reflexivity].
    - rewrite lookup_seq_ge, (lookup_ge_None_2 ws) by lia. reflexivity. }
  cbn [result error combined]. rewrite !Hg.
  unfold arithmetic_mean, root_sum_squares_over_W, float_sum, accumulate.
  rewrite sum_sq_map. split; reflexivity.
Qed.

Lemma combination_rule_witness :
  exists m',
    parallel_monte_carlo_integration (one_sample_vegas false) rt4
      (wrap64 N_MC) Dim unit_cube = Done m'
    /\ result m'
       = arithmetic_mean
           ((stored_replies (one_sample_vegas false) rt4 (wrap64 N_MC) Dim
               unit_cube 4).*1) 4
    /\ error m'
       = root_sum_squares_over_W
           ((stored_replies (one_sample_vegas false) rt4 (wrap64 N_MC) Dim
               unit_cube 4).*2) 4.
Proof.
  pose proof (combination_rule (one_sample_vegas false) rt4 (wrap64 N_MC) Dim
                unit_cube
                (stored_replies (one_sample_vegas false) rt4 (wrap64 N_MC) Dim
                   unit_cube 4)) as H.
  assert (Hlen : length (stored_replies (one_sample_vegas false) rt4
                           (wrap64 N_MC) Dim unit_cube 4) = 4%nat)
    by (vm_compute; reflexivity).
  rewrite Hlen in H. apply H.
  - lia.
  - reflexivity.
  - unfold full_team. small_team.
  - intros i w Hi.
    do 4 (destruct i as [|i];
          [vm_compute in Hi; injection Hi as <-; eexists; vm_compute;
           reflexivity|]).
    vm_compute in Hi. discriminate.
Defined.

(** The rule on synthetic worker results. *)
Example combination_rule_synthetic :
  arithmetic_mean [1; 2; 3; 6]%float 4 = 3%float
  /\ root_sum_squares_over_W [3; 4]%float 2 = 2.5%float
  /\ result (combined unit_cube [1; 2; 3; 6]%float [3; 4]%float 4) = 3%float.
Proof. repeat split; reflexivity. Qed.

(** A team smaller than [omp_get_max_threads()] leaves the slots of the
    absent threads at zero, and the sums are still divided by the number of
    slots. *)
Theorem absent_thread_counts_as_zero gsl rt calls dim m (W t : nat) :
  num_threads_of rt = Z.of_nat W ->
  Forall (fun i => (i < W)%nat) (omp_team rt) ->
  (forall i, i ∈ omp_team rt -> reply_of gsl rt calls dim m i <> VegasAbort) ->
  (t < W)%nat ->
  t ∉ omp_team rt ->
  exists m',
    parallel_monte_carlo_integration gsl rt calls dim m = Done m'
    /\ length (results m') = W
    /\ results m' !! t = Some 0%float
    /\ errors m' !! t = Some 0%float
    /\ result m' = arithmetic_mean (results m') (Z.of_nat W).
Proof.
  intros Hn Hteam Hno Ht Habsent.
  rewrite (pmci_bounded gsl rt calls dim m W) by (auto; lia).
  rewrite existsb_none.
  2:{ intros i Hi. specialize (Hno i Hi).
      destruct (reply_of gsl rt calls dim m i); [reflexivity|congruence]. }
  eexists; split; [reflexivity|]. cbn [results errors result combined].
  unfold gathered at 1 2 3.
  rewrite length_fmap, length_seq, !list_lookup_fmap, lookup_seq_lt
    by exact Ht.
  cbn [fmap option_fmap option_map].
  rewrite bool_decide_eq_false_2 by exact Habsent.
  repeat split; reflexivity.
Qed.

Lemma absent_thread_counts_as_zero_witness :
  exists m',
    parallel_monte_carlo_integration (one_sample_vegas false) rt4_team_of_two
      (wrap64 N_MC) Dim unit_cube = Done m'
    /\ length (results m') = 4%nat
    /\ results m' !! 3%nat = Some 0%float
    /\ errors m' !! 3%nat = Some 0%float
    /\ result m' = arithmetic_mean (results m') (Z.of_nat 4).
Proof.
  apply (absent_thread_counts_as_zero (one_sample_vegas false)
           rt4_team_of_two (wrap64 N_MC) Dim unit_cube 4 3).
  - reflexivity.
  - repeat constructor.
  - intros i Hi.
    apply elem_of_cons in Hi as [->|Hi]; [vm_compute; discriminate|].
    apply elem_of_cons in Hi as [->|Hi]; [vm_compute; discriminate|].
    apply elem_of_nil in Hi. destruct Hi.
  - lia.
  - intros Hi. cbn in Hi. rewrite !elem_of_cons, elem_of_nil in Hi. lia.
Defined.

(** * The seeds of the threads *)

(** C3.  The seed is the exclusive or of the clock reading and the thread
    number plus a constant.  Two threads whose readings differ can get one
    seed: in the runtime [rt2] thread 0 reads 1700000000000000000, thread 1
    reads 1700000000000000003, and both set their generator to
    9917178473806330901; the readings 1000 and 1003 collide in the same
    way. *)
Theorem seed_collision_distinct_readings :
  clock_count rt2 0%nat <> clock_count rt2 1%nat
  /\ vc_seed (vegas_args rt2 (wrap64 N_MC) Dim (num_threads_of rt2) 0
                unit_cube)
     = vc_seed (vegas_args rt2 (wrap64 N_MC) Dim (num_threads_of rt2) 1
                  unit_cube)
  /\ vc_seed (vegas_args rt2 (wrap64 N_MC) Dim (num_threads_of rt2) 0
                unit_cube) = 9917178473806330901
  /\ thread_seed 1000 0 = thread_seed 1003 1.
Proof. split; [vm_compute; discriminate|]. repeat split; reflexivity. Qed.

Lemma lxor_cancel_l a b c : Z.lxor a b = Z.lxor a c -> b = c.
Proof.
  intros H. apply Z.lxor_eq.
  replace (Z.lxor b c) with (Z.lxor (Z.lxor a b) (Z.lxor a c)).
  - rewrite H. apply Z.lxor_nilpotent.
  - rewrite Z.lxor_assoc, <- (Z.lxor_assoc b a c), (Z.lxor_comm b a),
      Z.lxor_assoc, <- Z.lxor_assoc, Z.lxor_nilpotent. apply Z.lxor_0_l.
Qed.

(** Threads that read the clock at one instant get distinct seeds. *)
Lemma seeds_distinct_same_reading count (t1 t2 : nat) :
  Z.of_nat t1 < 2 ^ 31 -> Z.of_nat t2 < 2 ^ 31 -> t1 <> t2 ->
  thread_seed count (Z.of_nat t1) <> thread_seed count (Z.of_nat t2).
Proof.
  intros H1 H2 Hne Heq. unfold thread_seed in Heq.
  apply lxor_cancel_l in Heq. unfold wrap64 in Heq.
  rewrite !Z.mod_small in Heq by lia. lia.
Qed.

Lemma seeds_distinct_same_reading_witness :
  thread_seed 1700000000000000000 (Z.of_nat 0)
  <> thread_seed 1700000000000000000 (Z.of_nat 1).
Proof.
  apply (seeds_distinct_same_reading 1700000000000000000 0 1);
    [reflexivity | reflexivity | discriminate].
Defined.

(** Two threads get one seed exactly when their readings differ by the
    exclusive or of their offsets. *)
Lemma seed_collision_iff c1 c2 (t1 t2 : Z) :
  thread_seed c1 t1 = thread_seed c2 t2
  <-> wrap64 c2
      = Z.lxor (wrap64 c1)
          (Z.lxor (wrap64 (t1 + 0x9e3779b97f4a7c15))
                  (wrap64 (t2 + 0x9e3779b97f4a7c15))).
Proof.
  unfold thread_seed.
  set (a := wrap64 c1). set (b := wrap64 c2).
  set (x := wrap64 (t1 + _)). set (y := wrap64 (t2 + _)).
  split; intros H.
  - apply (lxor_cancel_l y).
    rewrite (Z.lxor_comm y b), <- H.
    rewrite (Z.lxor_comm x y), <- !Z.lxor_assoc, (Z.lxor_comm y a),
      (Z.lxor_assoc a y y), Z.lxor_nilpotent, Z.lxor_0_r.
    reflexivity.
  - rewrite H.
    rewrite !Z.lxor_assoc, Z.lxor_nilpotent, Z.lxor_0_r. reflexivity.
Qed.

(** * The integrand wrapper *)

(** C10.  The wrapper reads exactly [k[0]], [k[1]] and [k[2]] and ignores
    [dim]: its reads stay inside the point array exactly when the array has at
    least three components, and then neither [dim] nor a component past the
    third changes the value, which is [f] at the first three. *)
Theorem integrand_reads_three (k : list float) (dim : Z) (par : parameters) :
  (is_Some (integrand k dim par) <-> (3 <= length k)%nat)
  /\ (forall dim', integrand k dim' par = integrand k dim par)
  /\ (forall x y z rest rest' dim',
        integrand (x :: y :: z :: rest) dim par = Some (f x y z par)
        /\ integrand (x :: y :: z :: rest') dim' par
           = integrand (x :: y :: z :: rest) dim par).
Proof.
  split; [|split].
  - unfold integrand.
    destruct k as [|x [|y [|z rest]]]; simpl; split;
      intros H; try lia; try (destruct H as [v H]; discriminate); eauto.
  - reflexivity.
  - intros; split; reflexivity.
Qed.

Example integrand_short_array :
  integrand [0.5; 0.5]%float 2 par01 = None
  /\ integrand [0.5; 0.5; 0.5; 7]%float 4 par01
     = integrand [0.5; 0.5; 0.5]%float 3 par01.
Proof. split; reflexivity. Qed.

(** * What a call leaves unchanged *)

(** In the function's view a call that returns leaves [xl], [xu] and [par],
    with its fields [p] and [q], as they were: what the region writes are the
    two vectors. *)
Lemma call_preserves_inputs gsl rt calls dim m m' :
  parallel_monte_carlo_integration gsl rt calls dim m = Done m' ->
  xl m' = xl m /\ xu m' = xu m /\ par m' = par m
  /\ p (par m') = p (par m) /\ q (par m') = q (par m).
Proof.
  unfold parallel_monte_carlo_integration.
  destruct (omp_parallel _ _ _) as [m1| |] eqn:E; cbn [bind]; try discriminate.
  intros [= <-]. cbn [xl xu par].
  apply omp_parallel_caller in E as (-> & -> & -> & _).
  cbn [xl xu par]. auto.
Qed.

(** Storing back what was loaded changes nothing. *)
Lemma list_inserts_load_array (h : list float) (a n : nat) :
  list_inserts a (load_array h a n) h = h.
Proof.
  unfold load_array. apply list_eq. intros j.
  destruct (decide (j < a)%nat) as [Hlt|Hge].
  { apply list_lookup_inserts_lt, Hlt. }
  destruct (decide (a + length (take n (drop a h)) <= j)%nat) as [Hout|Hin].
  { apply list_lookup_inserts_ge, Hout. }
  destruct (decide (j < length h)%nat) as [Hj|Hj].
  - rewrite list_lookup_inserts by lia.
    rewrite length_take in Hin.
    rewrite lookup_take_lt, lookup_drop by lia.
    f_equal. lia.
  - rewrite !lookup_ge_None_2; [reflexivity|lia|rewrite length_inserts; lia].
Qed.

Lemma store_parameters_loaded (h : list float) (a : nat) par0 :
  load_parameters h a = Some par0 -> store_parameters a par0 h = h.
Proof.
  unfold load_parameters, store_parameters.
  destruct (h !! a) as [p0|] eqn:Ep; [|discriminate].
  destruct (h !! S a) as [q0|] eqn:Eq; [|discriminate].
  intros [= <-]. cbn [p q].
  rewrite (list_insert_id h a p0) by exact Ep.
  apply list_insert_id, Eq.
Qed.

(** A call that returns has stored the mean through [result], then the error
    through [error], and nothing else. *)
Lemma call_by_reference_stores gsl rt calls dim r h h' :
  call_by_reference gsl rt calls dim r h = Done h' ->
  exists m m1,
    caller_view dim r h = Some m
    /\ parallel_monte_carlo_integration gsl rt calls dim m = Done m1
    /\ h' = <[at_error r := error m1]> (<[at_result r := result m1]> h).
Proof.
  unfold call_by_reference.
  destruct (caller_view dim r h) as [m|] eqn:Eview; [|discriminate].
  destruct (parallel_monte_carlo_integration _ _ _ _ _) as [m1| |] eqn:E;
    cbn [bind]; try discriminate.
  intros [= <-]. exists m, m1. split; [reflexivity|]. split; [exact E|].
  apply call_preserves_inputs in E as (-> & -> & -> & _).
  unfold caller_view in Eview.
  destruct (load_parameters h (at_par r)) as [par0|] eqn:Epar;
    [|discriminate].
  destruct (h !! at_result r) as [result0|]; [|discriminate].
  destruct (h !! at_error r) as [error0|]; [|discriminate].
  injection Eview as <-. cbn [xl xu par].
  rewrite !list_inserts_load_array, (store_parameters_loaded _ _ _ Epar).
  reflexivity.
Qed.

Lemma load_array_stores (h : list float) (a n i j : nat) (x y : float) :
  outside i a n -> outside j a n ->
  load_array (<[j := y]> (<[i := x]> h)) a n = load_array h a n.
Proof.
  unfold outside, load_array. intros Hi Hj. apply list_eq. intros k.
  destruct (decide (k < n)%nat) as [Hk|Hk].
  - rewrite !lookup_take_lt, !lookup_drop by exact Hk.
    rewrite !list_lookup_insert_ne by lia. reflexivity.
  - rewrite !lookup_take_ge by lia. reflexivity.
Qed.

Lemma load_parameters_stores (h : list float) (a i j : nat) (x y : float) :
  outside i a 2 -> outside j a 2 ->
  load_parameters (<[j := y]> (<[i := x]> h)) a = load_parameters h a.
Proof.
  unfold outside, load_parameters. intros Hi Hj.
  rewrite !list_lookup_insert_ne by lia. reflexivity.
Qed.

(** C7, as the code has it.  All a returning call does to the doubles of its
    caller is to assign the mean through [result] and then the error through
    [error]: no other double changes.  So a call whose [result] and [error]
    are bound to doubles that are no component of [xl] or [xu] and no field
    of [par] leaves the bound vectors and the parameter record as they were;
    one that binds [result] or [error] to such a component overwrites it. *)
Theorem call_preserves_separate_inputs gsl rt calls dim r h h' :
  call_by_reference gsl rt calls dim r h = Done h' ->
  (exists m m1,
     caller_view dim r h = Some m
     /\ parallel_monte_carlo_integration gsl rt calls dim m = Done m1
     /\ h' = <[at_error r := error m1]> (<[at_result r := result m1]> h))
  /\ length h' = length h
  /\ (forall a, a <> at_result r -> a <> at_error r -> h' !! a = h !! a)
  /\ (apart_from_inputs (at_result r) r dim ->
      apart_from_inputs (at_error r) r dim ->
      load_array h' (at_xl r) (Z.to_nat dim)
      = load_array h (at_xl r) (Z.to_nat dim)
      /\ load_array h' (at_xu r) (Z.to_nat dim)
         = load_array h (at_xu r) (Z.to_nat dim)
      /\ load_parameters h' (at_par r) = load_parameters h (at_par r)).
Proof.
  intros Hcall.
  pose proof (call_by_reference_stores _ _ _ _ _ _ _ Hcall) as Hst.
  split; [exact Hst|].
  destruct Hst as (m & m1 & _ & _ & ->).
  split; [|split].
  - rewrite !length_insert. reflexivity.
  - intros a Ha1 Ha2. rewrite !list_lookup_insert_ne by congruence.
    reflexivity.
  - intros (Rl & Ru & Rp) (El & Eu & Ep). split; [|split].
    + apply load_array_stores; assumption.
    + apply load_array_stores; assumption.
    + apply load_parameters_stores; assumption.
Qed.

(** The call of [main] with [result] bound to [Lower_bounds[0]]: it returns,
    and the first lower bound has become the mean. *)
Lemma aliased_result_counterexample :
  call_by_reference (one_sample_vegas false) rt4 (wrap64 N_MC) Dim
    result_in_xl main_doubles
  = Done [0.019636774063110353; 0; 0; 1; 1; 1; 0.1; 0.1; 0;
          6.803584861511699e-06]%float
  /\ load_array main_doubles (at_xl result_in_xl) 3 = [0; 0; 0]%float
  /\ load_array
       [0.019636774063110353; 0; 0; 1; 1; 1; 0.1; 0.1; 0;
        6.803584861511699e-06]%float (at_xl result_in_xl) 3
     <> load_array main_doubles (at_xl result_in_xl) 3.
Proof.
  split; [vm_compute; reflexivity|]. split; [reflexivity|].
  intros H.
  apply (f_equal (fun l => match l with
                           | x :: _ => (x =? 0)%float
                           | [] => true
                           end)) in H.
  vm_compute in H. discriminate.
Qed.

Lemma call_preserves_separate_inputs_witness :
  exists h',
    call_by_reference (one_sample_vegas false) rt4 (wrap64 N_MC) Dim
      main_references main_doubles = Done h'
    /\ load_array h' 0 3 = Lower_bounds
    /\ load_array h' 3 3 = Upper_bounds
    /\ load_parameters h' 6 = Some par01
    /\ length h' = 10%nat
    /\ (forall a, a <> 8%nat -> a <> 9%nat -> h' !! a = main_doubles !! a).
Proof.
  destruct (call_by_reference (one_sample_vegas false) rt4 (wrap64 N_MC) Dim
              main_references main_doubles) as [h'| |] eqn:E;
    [|vm_compute in E; discriminate..].
  exists h'. split; [reflexivity|].
  destruct (call_preserves_separate_inputs (one_sample_vegas false) rt4
              (wrap64 N_MC) Dim main_references main_doubles h' E)
    as (_ & Hlen & Hother & Hsep).
  destruct Hsep as (Hl & Hu & Hp).
  - unfold apart_from_inputs, outside, Dim. cbn. lia.
  - unfold apart_from_inputs, outside, Dim. cbn. lia.
  - repeat split; assumption.
Defined.

(** The doubles [main] has after its call: the outputs hold the mean and the
    error, every input is as it was. *)
Example main_doubles_after :
  call_by_reference (one_sample_vegas false) rt4 (wrap64 N_MC) Dim
    main_references main_doubles
  = Done [0; 0; 0; 1; 1; 1; 0.1; 0.1; 0.019636774063110353;
          6.803584861511699e-06]%float.
Proof. vm_compute. reflexivity. Qed.

(** * Runs with the same seeds *)

(** C9.  Two calls with the same integrand, domain, dimension, parameters,
    budget and worker count whose workers get the same seeds end alike: both
    return, with the same mean and error bit for bit (and the same memory), or
    both are ended by the integrator.  The order in which the threads of the
    two teams store does not matter. *)
Theorem same_seeds_same_result gsl rt1 rt2 calls dim m (W : nat) :
  num_threads_of rt1 = Z.of_nat W ->
  num_threads_of rt2 = Z.of_nat W ->
  full_team rt1 W ->
  full_team rt2 W ->
  (forall t, (t < W)%nat ->
     thread_seed (clock_count rt1 t) (Z.of_nat t)
     = thread_seed (clock_count rt2 t) (Z.of_nat t)) ->
  parallel_monte_carlo_integration gsl rt1 calls dim m
  = parallel_monte_carlo_integration gsl rt2 calls dim m.
Proof.
  intros Hn1 Hn2 Ht1 Ht2 Hseed.
  destruct (decide (W = 0%nat)) as [->|HW].
  - rewrite !pmci_zero by assumption.
    unfold full_team in Ht1, Ht2. cbn in Ht1, Ht2.
    apply Permutation_nil_r in Ht1, Ht2. rewrite Ht1, Ht2. reflexivity.
  - assert (Hmem : forall i, i ∈ omp_team rt1 <-> i ∈ omp_team rt2).
    { intros i. rewrite !(full_team_member _ W) by assumption. reflexivity. }
    assert (Hreply : forall i, i ∈ omp_team rt1 ->
              reply_of gsl rt1 calls dim m i = reply_of gsl rt2 calls dim m i).
    { intros i Hi. apply (full_team_member _ _ _ Ht1) in Hi.
      unfold reply_of, vegas_args. rewrite Hn1, Hn2, (Hseed i Hi).
      reflexivity. }
    rewrite (pmci_bounded gsl rt1 calls dim m W),
      (pmci_bounded gsl rt2 calls dim m W)
      by auto using full_team_bounded.
    rewrite (existsb_members
               (fun t => is_abort (reply_of gsl rt1 calls dim m t))
               (fun t => is_abort (reply_of gsl rt2 calls dim m t))
               (omp_team rt1) (omp_team rt2) Hmem)
      by (intros i Hi; rewrite (Hreply i Hi); reflexivity).
    rewrite !(gathered_ext _ (reply_of gsl rt1 calls dim m)
                (reply_of gsl rt2 calls dim m)
                (omp_team rt1) (omp_team rt2) W Hmem Hreply).
    reflexivity.
Qed.

Lemma same_seeds_same_result_witness :
  parallel_monte_carlo_integration (one_sample_vegas false) rt4
    (wrap64 N_MC) Dim unit_cube
  = parallel_monte_carlo_integration (one_sample_vegas false) rt4_in_order
      (wrap64 N_MC) Dim unit_cube.
Proof.
  apply (same_seeds_same_result (one_sample_vegas false) rt4 rt4_in_order
           (wrap64 N_MC) Dim unit_cube 4).
  - reflexivity.
  - reflexivity.
  - unfold full_team. small_team.
  - unfold full_team. reflexivity.
  - intros t _. reflexivity.
Defined.

(** * Failures *)

(** No call ends with a failure of the specification's kinds. *)
Lemma integrate_never_fails gsl rt calls lower upper dim par k :
  integrate gsl rt calls lower upper dim par <> Fails k.
Proof.
  unfold integrate.
  destruct (parallel_monte_carlo_integration _ _ _ _ _); discriminate.
Qed.

(** With [W >= 1] threads allowed and a full team a call returns, unless an
    integrator call ends the process. *)
Lemma integrate_cases gsl rt calls lower upper dim par (W : nat) :
  num_threads_of rt = Z.of_nat W -> W <> 0%nat -> full_team rt W ->
  ((forall t, (t < W)%nat ->
      reply_of gsl rt calls dim (caller_memory lower upper par) t
      <> VegasAbort)
   /\ exists mean err,
        integrate gsl rt calls lower upper dim par = Returns mean err)
  \/ ((exists t, (t < W)%nat
         /\ reply_of gsl rt calls dim (caller_memory lower upper par) t
            = VegasAbort)
      /\ integrate gsl rt calls lower upper dim par = EndsAborted).
Proof.
  intros Hn HW Hteam. unfold integrate.
  rewrite (pmci_bounded gsl rt calls dim _ W)
    by auto using full_team_bounded.
  destruct (existsb _ _) eqn:E.
  - right. split; [|reflexivity].
    apply existsb_exists in E as (t & Ht & Ha).
    apply list_elem_of_In, (full_team_member _ _ _ Hteam) in Ht.
    exists t. split; [exact Ht|].
    destruct (reply_of _ _ _ _ _ t); [discriminate|reflexivity].
  - left. split; [|eauto].
    intros t Ht Ha.
    assert (existsb
              (fun t => is_abort
                 (reply_of gsl rt calls dim (caller_memory lower upper par) t))
              (omp_team rt) = true) as E'; [|congruence].
    apply existsb_exists. exists t. split.
    + apply list_elem_of_In, (full_team_member _ _ _ Hteam), Ht.
    + rewrite Ha. reflexivity.
Qed.

Lemma integrate_returns gsl rt calls lower upper dim par (W : nat) :
  num_threads_of rt = Z.of_nat W -> W <> 0%nat -> full_team rt W ->
  (forall t, (t < W)%nat ->
     reply_of gsl rt calls dim (caller_memory lower upper par) t
     <> VegasAbort) ->
  exists mean err,
    integrate gsl rt calls lower upper dim par = Returns mean err.
Proof.
  intros Hn HW Hteam Hno.
  destruct (integrate_cases gsl rt calls lower upper dim par W Hn HW Hteam)
    as [[_ H]|[(t & Ht & Ha) _]]; [exact H|].
  destruct (Hno t Ht Ha).
Qed.

Lemma integrate_aborted gsl rt calls lower upper dim par (W : nat) :
  num_threads_of rt = Z.of_nat W -> W <> 0%nat -> full_team rt W ->
  (exists t, (t < W)%nat
     /\ reply_of gsl rt calls dim (caller_memory lower upper par) t
        = VegasAbort) ->
  integrate gsl rt calls lower upper dim par = EndsAborted.
Proof.
  intros Hn HW Hteam (t & Ht & Ha).
  destruct (integrate_cases gsl rt calls lower upper dim par W Hn HW Hteam)
    as [[Hno _]|[_ H]]; [|exact H].
  destruct (Hno t Ht Ha).
Qed.

(** A team numbered below [W >= 1], one of whose integrator calls ends the
    process. *)
Lemma pmci_aborted gsl rt calls dim m (W t : nat) :
  num_threads_of rt = Z.of_nat W -> W <> 0%nat ->
  Forall (fun t => (t < W)%nat) (omp_team rt) ->
  t ∈ omp_team rt ->
  reply_of gsl rt calls dim m t = VegasAbort ->
  parallel_monte_carlo_integration gsl rt calls dim m = Aborted.
Proof.
  intros Hn HW Hteam Ht Ha.
  rewrite (pmci_bounded gsl rt calls dim m W) by assumption.
  replace (existsb _ _) with true; [reflexivity|].
  symmetry. apply existsb_exists. exists t.
  split; [apply list_elem_of_In, Ht|]. rewrite Ha. reflexivity.
Qed.

(** ** An inverted domain *)

(** What the source itself does with a domain in which some lower bound
    exceeds its upper bound: it checks nothing, every thread hands [xl] and
    [xu] on to its integrator call as they are, and the status the call
    returns is dropped.  Whether the call fails is the integrator's
    matter. *)
Lemma inverted_domain_unchecked gsl rt calls lower upper dim par (W : nat) :
  inverted_domain lower upper = true ->
  (1 <= W)%nat ->
  num_threads_of rt = Z.of_nat W ->
  full_team rt W ->
  (forall t,
     vc_xl (vegas_args rt calls dim (num_threads_of rt) t
              (caller_memory lower upper par)) = lower
     /\ vc_xu (vegas_args rt calls dim (num_threads_of rt) t
                (caller_memory lower upper par)) = upper)
  /\ (forall k, integrate gsl rt calls lower upper dim par <> Fails k)
  /\ ((forall t, (t < W)%nat ->
         reply_of gsl rt calls dim (caller_memory lower upper par) t
         <> VegasAbort) ->
      exists mean err,
        integrate gsl rt calls lower upper dim par = Returns mean err)
  /\ ((exists t, (t < W)%nat
         /\ reply_of gsl rt calls dim (caller_memory lower upper par) t
            = VegasAbort) ->
      integrate gsl rt calls lower upper dim par = EndsAborted).
Proof.
  intros _ HW Hn Hteam. split; [|split; [|split]].
  - intros t. split; reflexivity.
  - intros k. apply integrate_never_fails.
  - apply (integrate_returns gsl rt calls lower upper dim par W); auto; lia.
  - apply (integrate_aborted gsl rt calls lower upper dim par W); auto; lia.
Qed.

(** C4.  The check of the domain is the sampler's.  With a sampler that
    checks the domain as the specification says, a call on a domain in which
    some lower bound exceeds its upper bound fails before any sampling, for
    every worker count [W >= 1] and every team: each worker hands the bounds
    on as they are, so the sampler of each fails with [InvalidDomain],
    whatever the sampling would have given; the source has nothing that
    outlives the failure, so the whole call ends with it and no mean and
    error are returned. *)
Theorem inverted_domain_fails sampling rt calls lower upper dim par
    (W : nat) :
  inverted_domain lower upper = true ->
  (1 <= W)%nat ->
  num_threads_of rt = Z.of_nat W ->
  omp_team rt <> [] ->
  Forall (fun t => (t < W)%nat) (omp_team rt) ->
  (forall t,
     adaptive_sampler sampling
       (vegas_args rt calls dim (num_threads_of rt) t
          (caller_memory lower upper par))
     = SamplerFails InvalidDomain)
  /\ integrate (sampler_reply (adaptive_sampler sampling)) rt calls
       lower upper dim par = EndsAborted
  /\ (forall mean err,
        integrate (sampler_reply (adaptive_sampler sampling)) rt calls
          lower upper dim par <> Returns mean err).
Proof.
  intros Hinv HW Hn Hne Hteam.
  assert (Hfail : forall t,
            adaptive_sampler sampling
              (vegas_args rt calls dim (num_threads_of rt) t
                 (caller_memory lower upper par))
            = SamplerFails InvalidDomain).
  { intros t. unfold adaptive_sampler.
    cbn [vegas_args vc_xl vc_xu caller_memory xl xu].
    rewrite Hinv. reflexivity. }
  assert (Hend : integrate (sampler_reply (adaptive_sampler sampling)) rt
                   calls lower upper dim par = EndsAborted).
  { destruct (omp_team rt) as [|t team] eqn:Eteam; [congruence|].
    unfold integrate.
    rewrite (pmci_aborted _ rt calls dim _ W t); try assumption.
    - reflexivity.
    - lia.
    - rewrite Eteam. exact Hteam.
    - rewrite Eteam. apply list_elem_of_here.
    - unfold reply_of, sampler_reply. rewrite Hfail. reflexivity. }
  split; [exact Hfail|]. split; [exact Hend|].
  intros mean err. rewrite Hend. discriminate.
Qed.

Lemma inverted_domain_fails_witness :
  (forall t,
     adaptive_sampler constant_sampling
       (vegas_args rt4 (wrap64 N_MC) Dim (num_threads_of rt4) t
          (caller_memory [0; 1; 0]%float [1; 0; 1]%float par01))
     = SamplerFails InvalidDomain)
  /\ integrate (sampler_reply (adaptive_sampler constant_sampling)) rt4
       (wrap64 N_MC) [0; 1; 0]%float [1; 0; 1]%float Dim par01 = EndsAborted
  /\ (forall mean err,
        integrate (sampler_reply (adaptive_sampler constant_sampling)) rt4
          (wrap64 N_MC) [0; 1; 0]%float [1; 0; 1]%float Dim par01
        <> Returns mean err).
Proof.
  apply (inverted_domain_fails constant_sampling rt4 (wrap64 N_MC)
           [0; 1; 0]%float [1; 0; 1]%float Dim par01 4).
  - vm_compute. reflexivity.
  - lia.
  - reflexivity.
  - discriminate.
  - cbn. repeat (apply Forall_cons; split; [lia|]). apply Forall_nil. exact I.
Defined.

(** On the unit cube the same sampler samples: the call returns what the
    sampling gave. *)
Example unit_cube_is_sampled :
  integrate (sampler_reply (adaptive_sampler constant_sampling)) rt4
    (wrap64 N_MC) Lower_bounds Upper_bounds Dim par01
  = Returns 0.25 0.0005.
Proof. vm_compute. reflexivity. Qed.

(** The stand-in integrator on the same domain: it ends the process as the
    library's default error handler does; were the handler switched off
    (the source never does that), it would return its status, which the
    source drops, and the call would return [(0, 0)]. *)
Example inverted_domain_default_handler :
  integrate (one_sample_vegas true) rt4 (wrap64 N_MC)
    [0; 1; 0]%float [1; 0; 1]%float Dim par01 = EndsAborted.
Proof. vm_compute. reflexivity. Qed.

Example inverted_domain_handler_off :
  integrate (one_sample_vegas false) rt4 (wrap64 N_MC)
    [0; 1; 0]%float [1; 0; 1]%float Dim par01 = Returns 0 0.
Proof. vm_compute. reflexivity. Qed.

(** ** A dimension that is not the number of bound components *)

(** C5, as the code has it.  When the declared dimension is not the number of
    components of the bound vectors the function checks nothing and signals
    no [InvalidDimension]: the bounds arrive as bare arrays, and every thread
    hands [dim] on as the dimension of the VEGAS state, of the function and
    of the integration, with the bounds as they are.  The call returns a mean
    and an error whenever the integrator calls return. *)
Theorem dimension_unchecked gsl rt calls lower upper dim par (W : nat) :
  dimension_mismatch dim lower upper = true ->
  (1 <= W)%nat ->
  num_threads_of rt = Z.of_nat W ->
  full_team rt W ->
  (forall t,
     vegas_args rt calls dim (num_threads_of rt) t
       (caller_memory lower upper par)
     = {| vc_G := {| gf_f := integrand; gf_dim := dim; gf_params := par |};
          vc_xl := lower; vc_xu := upper; vc_dim := dim;
          vc_calls := calls / Z.of_nat W;
          vc_seed := thread_seed (clock_count rt t) (Z.of_nat t);
          vc_state_dim := dim |})
  /\ (forall k, integrate gsl rt calls lower upper dim par <> Fails k)
  /\ ((forall t, (t < W)%nat ->
         reply_of gsl rt calls dim (caller_memory lower upper par) t
         <> VegasAbort) ->
      exists mean err,
        integrate gsl rt calls lower upper dim par = Returns mean err).
Proof.
  intros _ HW Hn Hteam. split; [|split].
  - intros t. unfold vegas_args. rewrite Hn. reflexivity.
  - intros k. apply integrate_never_fails.
  - apply (integrate_returns gsl rt calls lower upper dim par W); auto; lia.
Qed.

(** Bounds of four components with the declared dimension 3: the call
    returns, with the values it returns for the first three components. *)
Lemma dimension_mismatch_counterexample :
  dimension_mismatch 3 [0; 0; 0; 0]%float [1; 1; 1; 1]%float = true
  /\ integrate (one_sample_vegas false) rt4 (wrap64 N_MC)
       [0; 0; 0; 0]%float [1; 1; 1; 1]%float 3 par01
     = Returns 0.019636774063110353 6.803584861511699e-06
  /\ integrate (one_sample_vegas false) rt4 (wrap64 N_MC)
       Lower_bounds Upper_bounds 3 par01
     = Returns 0.019636774063110353 6.803584861511699e-06.
Proof. repeat split; vm_compute; reflexivity. Qed.

Lemma dimension_unchecked_witness :
  (forall t,
     vegas_args rt4 (wrap64 N_MC) 3 (num_threads_of rt4) t
       (caller_memory [0; 0; 0; 0]%float [1; 1; 1; 1]%float par01)
     = {| vc_G := {| gf_f := integrand; gf_dim := 3; gf_params := par01 |};
          vc_xl := [0; 0; 0; 0]%float; vc_xu := [1; 1; 1; 1]%float;
          vc_dim := 3;
          vc_calls := wrap64 N_MC / Z.of_nat 4;
          vc_seed := thread_seed (clock_count rt4 t) (Z.of_nat t);
          vc_state_dim := 3 |})
  /\ (forall k,
        integrate (one_sample_vegas false) rt4 (wrap64 N_MC)
          [0; 0; 0; 0]%float [1; 1; 1; 1]%float 3 par01 <> Fails k)
  /\ ((forall t, (t < 4)%nat ->
         reply_of (one_sample_vegas false) rt4 (wrap64 N_MC) 3
           (caller_memory [0; 0; 0; 0]%float [1; 1; 1; 1]%float par01) t
         <> VegasAbort) ->
      exists mean err,
        integrate (one_sample_vegas false) rt4 (wrap64 N_MC)
          [0; 0; 0; 0]%float [1; 1; 1; 1]%float 3 par01 = Returns mean err).
Proof.
  apply (dimension_unchecked (one_sample_vegas false) rt4 (wrap64 N_MC)
           [0; 0; 0; 0]%float [1; 1; 1; 1]%float 3 par01 4).
  - vm_compute. reflexivity.
  - lia.
  - reflexivity.
  - unfold full_team. small_team.
Defined.

(** ** No worker *)

(** [omp_get_max_threads()] is at least 1 in every OpenMP runtime, and an
    [int]: the worker count the function reads is never 0. *)
Lemma num_threads_positive rt :
  1 <= omp_get_max_threads rt < 2 ^ 31 ->
  1 <= num_threads_of rt < 2 ^ 31.
Proof.
  intros H. unfold num_threads_of, wrap64.
  rewrite Z.mod_small; lia.
Qed.

(** The function has no guard on the worker count.  In a runtime that
    allowed no thread (none does), a thread that ran the region would divide
    the budget by zero, which is undefined; were no thread to run it, the
    function would divide the two empty sums by zero and return
    [(NaN, NaN)]. *)
Lemma zero_workers_unguarded gsl rt calls lower upper dim par :
  num_threads_of rt = 0 ->
  integrate gsl rt calls lower upper dim par
  = match omp_team rt with
    | [] => Returns nan nan
    | _ :: _ => EndsUndefined
    end.
Proof.
  intros Hn. unfold integrate. rewrite pmci_zero by exact Hn.
  destruct (omp_team rt); reflexivity.
Qed.

Example zero_workers_runtimes :
  num_threads_of rt0_one_thread = 0
  /\ integrate (one_sample_vegas false) rt0_one_thread (wrap64 N_MC)
       Lower_bounds Upper_bounds Dim par01 = EndsUndefined
  /\ num_threads_of rt0_no_thread = 0
  /\ integrate (one_sample_vegas false) rt0_no_thread (wrap64 N_MC)
       Lower_bounds Upper_bounds Dim par01 = Returns nan nan.
Proof. repeat split; vm_compute; reflexivity. Qed.

(** * The exact value of the integral *)

Section Analytic.

Local Open Scope R_scope.

Lemma f_expr_float x y z par :
  f x y z par = f_expr PrimFloat.add PrimFloat.mul x y z (p par) (q par).
Proof. reflexivity. Qed.

Lemma f_expr_real x y z p q :
  f_real x y z p q = f_expr Rplus Rmult x y z p q.
Proof. reflexivity. Qed.

(** The integral of a continuous function with a known primitive. *)
Lemma RiemannInt_primitive (h G : R -> R) (a b : R)
    (pr : Riemann_integrable h a b) :
  a <= b ->
  (forall x, a <= x <= b -> continuity_pt h x) ->
  (forall x, a <= x <= b -> derivable_pt_lim G x (h x)) ->
  RiemannInt pr = G b - G a.
Proof.
  intros Hab Hc HG.
  rewrite (RiemannInt_P20 Hab (FTC_P1 Hab Hc) pr).
  pose proof (RiemannInt_P29 Hab Hc) as H1.
  assert (H2 : antiderivative h G a b).
  { split; [|exact Hab]. intros x Hx.
    exists (exist _ (h x) (HG x Hx)). reflexivity. }
  destruct (antiderivative_Ucte h _ _ a b H1 H2) as [c Hc'].
  rewrite !Hc' by lra. ring.
Qed.

Lemma quadratic_continuous c0 c1 c2 x : continuity_pt (quadratic c0 c1 c2) x.
Proof. unfold quadratic. reg. Qed.

Lemma cubic_primitive_derivative c0 c1 c2 x :
  derivable_pt_lim (cubic_primitive c0 c1 c2) x (quadratic c0 c1 c2 x).
Proof.
  pose proof (derivable_pt_lim_id x) as P1.
  pose proof (derivable_pt_lim_mult id id x 1 1 P1 P1) as P2.
  pose proof (derivable_pt_lim_mult (id * id)%F id x _ 1 P2 P1) as P3.
  pose proof
    (derivable_pt_lim_plus _ _ x _ _
       (derivable_pt_lim_plus _ _ x _ _
          (derivable_pt_lim_scal id c0 x 1 P1)
          (derivable_pt_lim_scal _ (c1 / 2) x _ P2))
       (derivable_pt_lim_scal _ (c2 / 3) x _ P3)) as P.
  unfold mult_fct, id in P.
  replace (quadratic c0 c1 c2 x)
    with (c0 * 1 + c1 / 2 * (1 * x + x * 1)
          + c2 / 3 * ((1 * x + x * 1) * x + x * x * 1))
    by (unfold quadratic; field).
  exact P.
Qed.

Lemma quadratic_integrable c0 c1 c2 :
  Riemann_integrable (quadratic c0 c1 c2) 0 1.
Proof.
  apply continuity_implies_RiemannInt; [lra|].
  intros x _. apply quadratic_continuous.
Qed.

(** The integral over [[0,1]] of a function that is a quadratic. *)
Lemma quadratic_integral (h : R -> R) (c0 c1 c2 : R)
    (pr : Riemann_integrable h 0 1) :
  (forall t, h t = quadratic c0 c1 c2 t) ->
  RiemannInt pr = c0 + c1 / 2 + c2 / 3.
Proof.
  intros Hh.
  rewrite (RiemannInt_P18 pr (quadratic_integrable c0 c1 c2))
    by (try lra; intros; apply Hh).
  rewrite (RiemannInt_primitive (quadratic c0 c1 c2)
             (cubic_primitive c0 c1 c2) 0 1).
  - unfold cubic_primitive. field.
  - lra.
  - intros x _. apply quadratic_continuous.
  - intros x _. apply cubic_primitive_derivative.
Qed.

(** The integral of a function that is [f_real] pointwise, taken one
    variable after the other over the unit cube. *)
Lemma iterated_integral (g : R -> R -> R -> R) (p q : R)
    (prz : forall x y, Riemann_integrable (fun z => g x y z) 0 1)
    (pry : forall x, Riemann_integrable (fun y => RiemannInt (prz x y)) 0 1)
    (prx : Riemann_integrable (fun x => RiemannInt (pry x)) 0 1) :
  (forall x y z, g x y z = f_real x y z p q) ->
  RiemannInt prx = 3 / 2 * p + q.
Proof.
  intros Hg.
  rewrite (quadratic_integral _ (p + 2 / 3 * q) p q prx).
  - field.
  - intros x.
    rewrite (quadratic_integral _ (x * p + x * x * q + p / 2 + q / 3) p q
               (pry x)).
    + unfold quadratic. field.
    + intros y.
      rewrite (quadratic_integral _ ((x + y) * p + (x * x + y * y) * q) p q
                 (prz x y)).
      * unfold quadratic. field.
      * intros z. rewrite Hg. unfold f_real, quadratic. ring.
Qed.

(** The integral of [f_real] over the unit cube, taken one variable after the
    other, is [3/2 p + q], whatever the proofs of integrability. *)
Theorem f_real_integral (p q : R)
    (prz : forall x y, Riemann_integrable (fun z => f_real x y z p q) 0 1)
    (pry : forall x, Riemann_integrable (fun y => RiemannInt (prz x y)) 0 1)
    (prx : Riemann_integrable (fun x => RiemannInt (pry x)) 0 1) :
  RiemannInt prx = 3 / 2 * p + q.
Proof. apply (iterated_integral _ p q prz pry prx). reflexivity. Qed.

(** The three integrals exist, and with [p = q = 1/10] the value is [1/4],
    the value [main] prints as the expected one. *)
Theorem f_real_integral_quarter :
  exists (prz : forall x y,
            Riemann_integrable (fun z => f_real x y z (1 / 10) (1 / 10)) 0 1)
         (pry : forall x,
            Riemann_integrable (fun y => RiemannInt (prz x y)) 0 1)
         (prx : Riemann_integrable (fun x => RiemannInt (pry x)) 0 1),
    RiemannInt prx = 1 / 4.
Proof.
  assert (prz : forall x y,
            Riemann_integrable (fun z => f_real x y z (1 / 10) (1 / 10)) 0 1).
  { intros x y.
    apply (Riemann_integrable_ext
             (f := quadratic
                     ((x + y) * (1 / 10) + (x * x + y * y) * (1 / 10))
                     (1 / 10) (1 / 10)));
      [|apply quadratic_integrable].
    intros z _. unfold f_real, quadratic. ring. }
  exists prz.
  assert (pry : forall x,
            Riemann_integrable (fun y => RiemannInt (prz x y)) 0 1).
  { intros x.
    apply (Riemann_integrable_ext
             (f := quadratic
                     (x * (1 / 10) + x * x * (1 / 10) + 1 / 10 / 2
                      + 1 / 10 / 3)
                     (1 / 10) (1 / 10)));
      [|apply quadratic_integrable].
    intros y _.
    rewrite (quadratic_integral _
               ((x + y) * (1 / 10) + (x * x + y * y) * (1 / 10))
               (1 / 10) (1 / 10) (prz x y)).
    - unfold quadratic. field.
    - intros z. unfold f_real, quadratic. ring. }
  exists pry.
  assert (prx : Riemann_integrable (fun x => RiemannInt (pry x)) 0 1).
  { apply (Riemann_integrable_ext
             (f := quadratic (1 / 10 + 2 / 3 * (1 / 10)) (1 / 10) (1 / 10)));
      [|apply quadratic_integrable].
    intros x _.
    rewrite (quadratic_integral _
               (x * (1 / 10) + x * x * (1 / 10) + 1 / 10 / 2 + 1 / 10 / 3)
               (1 / 10) (1 / 10) (pry x)).
    - unfold quadratic. field.
    - intros y.
      rewrite (quadratic_integral _
                 ((x + y) * (1 / 10) + (x * x + y * y) * (1 / 10))
                 (1 / 10) (1 / 10) (prz x y)).
      + unfold quadratic. field.
      + intros z. unfold f_real, quadratic. ring. }
  exists prx.
  rewrite (iterated_integral _ (1 / 10) (1 / 10) prz pry prx); [field|].
  reflexivity.
Qed.

End Analytic.

(** * Further properties of the aggregator *)

Section AggregatorProperties.

Variable gsl : vegas_call -> vegas_reply.

(** ** The status of the integrator *)

Lemma worker_drop_status gsl' rt calls dim n t m :
  (forall c, drop_status (gsl c) = drop_status (gsl' c)) ->
  worker gsl rt calls dim n t m = worker gsl' rt calls dim n t m.
Proof.
  intros H. unfold worker.
  destruct (n =? 0); [reflexivity|].
  destruct (negb _); [reflexivity|].
  specialize (H (vegas_args rt calls dim n t m)).
  destruct (gsl _) as [s stored|], (gsl' _) as [s' stored'|];
    simpl in H; congruence.
Qed.

Lemma omp_parallel_ext body body' team : forall m,
  (forall t m, body t m = body' t m) ->
  omp_parallel body team m = omp_parallel body' team m.
Proof.
  induction team as [|t team IH]; intros m H; [reflexivity|].
  simpl. rewrite H. destruct (body' t m); simpl; auto.
Qed.

(** The function never looks at the status [gsl_monte_vegas_integrate]
    returns: two integrators that store the same and end the process on the
    same calls give the same outcome, whatever their statuses. *)
Theorem status_is_ignored gsl' rt calls dim m :
  (forall c, drop_status (gsl c) = drop_status (gsl' c)) ->
  parallel_monte_carlo_integration gsl rt calls dim m
  = parallel_monte_carlo_integration gsl' rt calls dim m.
Proof.
  intros H. unfold parallel_monte_carlo_integration.
  rewrite (omp_parallel_ext _ (worker gsl' rt calls dim (num_threads_of rt)));
    [reflexivity|].
  intros t m1. apply worker_drop_status, H.
Qed.

(** ** The outputs are outputs only *)

Lemma store_slots_same_but_outputs t stored m m' :
  same_but_outputs m m' ->
  same_but_outputs (store_slots t stored m) (store_slots t stored m').
Proof.
  unfold same_but_outputs. intros (Hl & Hu & Hp & Hr & He).
  destruct stored as [[r e]|]; simpl; rewrite ?Hr, ?He; auto.
Qed.

Lemma worker_same_but_outputs rt calls dim n t m m' :
  same_but_outputs m m' ->
  same_run_but_outputs (worker gsl rt calls dim n t m)
    (worker gsl rt calls dim n t m').
Proof.
  intros Hm. pose proof Hm as (Hl & Hu & Hp & Hr & He). unfold worker.
  rewrite <- Hr, <- He.
  rewrite (vegas_args_caller rt calls dim n t m m') by auto.
  destruct (n =? 0); [exact I|].
  destruct (negb _); [exact I|].
  destruct (gsl _) as [s stored|]; [|exact I].
  apply store_slots_same_but_outputs, Hm.
Qed.

Lemma omp_parallel_same_but_outputs rt calls dim n team : forall m m',
  same_but_outputs m m' ->
  same_run_but_outputs (omp_parallel (worker gsl rt calls dim n) team m)
    (omp_parallel (worker gsl rt calls dim n) team m').
Proof.
  induction team as [|t team IH]; intros m m' Hm; [exact Hm|].
  cbn [omp_parallel].
  pose proof (worker_same_but_outputs rt calls dim n t m m' Hm) as Hw.
  destruct (worker gsl rt calls dim n t m) as [m1| |],
           (worker gsl rt calls dim n t m') as [m1'| |];
    simpl in Hw; try contradiction; try exact I.
  cbn [bind]. apply IH, Hw.
Qed.

(** What [result], [error] and the two vectors held before the call has no
    part in what the call leaves: it depends on the bounds and the
    parameters alone. *)
Theorem outputs_are_overwritten rt calls dim m m' :
  xl m = xl m' -> xu m = xu m' -> par m = par m' ->
  parallel_monte_carlo_integration gsl rt calls dim m
  = parallel_monte_carlo_integration gsl rt calls dim m'.
Proof.
  intros Hl Hu Hp. unfold parallel_monte_carlo_integration.
  match goal with
  | |- bind (omp_parallel ?b ?t ?a) _ = bind (omp_parallel ?b ?t ?a') _ =>
      assert (H : same_run_but_outputs (omp_parallel b t a)
                    (omp_parallel b t a'))
        by (apply omp_parallel_same_but_outputs;
            unfold same_but_outputs; simpl; auto);
      destruct (omp_parallel b t a) as [m1| |],
               (omp_parallel b t a') as [m1'| |]
  end; simpl in H; try contradiction; try reflexivity.
  destruct H as (E1 & E2 & E3 & E4 & E5). cbn [bind].
  rewrite E1, E2, E3, E4, E5. reflexivity.
Qed.

(** ** When a call returns *)

Lemma omp_parallel_done_bounded rt calls dim m (W : nat) team : forall m1 m2,
  xl m1 = xl m -> xu m1 = xu m -> par m1 = par m ->
  length (results m1) = W ->
  omp_parallel (worker gsl rt calls dim (num_threads_of rt)) team m1
  = Done m2 ->
  Forall (fun t => (t < W)%nat) team
  /\ forall t, t ∈ team -> reply_of gsl rt calls dim m t <> VegasAbort.
Proof.
  induction team as [|t team IH]; intros m1 m2 Hl Hu Hp Hlen Hrun.
  - split; [constructor|]. intros t Ht. apply elem_of_nil in Ht. destruct Ht.
  - cbn [omp_parallel] in Hrun.
    destruct (worker gsl rt calls dim (num_threads_of rt) t m1)
      as [m1'| |] eqn:Hw; cbn [bind] in Hrun; try discriminate.
    pose proof (worker_caller gsl _ _ _ _ _ _ _ Hw) as (El & Eu & Ep & _).
    unfold worker in Hw.
    destruct (num_threads_of rt =? 0); [discriminate|].
    destruct (bool_decide (t < length (results m1))%nat) eqn:Hb;
      [|discriminate].
    destruct (bool_decide (t < length (errors m1))%nat); [|discriminate].
    cbn [andb negb] in Hw.
    rewrite (vegas_args_caller rt calls dim (num_threads_of rt) t m m1) in Hw
      by assumption.
    apply bool_decide_eq_true_1 in Hb.
    destruct (gsl _) as [s stored|] eqn:Hg; [|discriminate].
    injection Hw as <-.
    destruct (IH (store_slots t stored m1) m2) as [Hall Hno];
      try congruence.
    { rewrite (proj1 (store_slots_lengths t stored m1)). exact Hlen. }
    split.
    + constructor; [lia|exact Hall].
    + intros i Hi. apply elem_of_cons in Hi as [->|Hi]; [|auto].
      unfold reply_of. rewrite Hg. discriminate.
Qed.

(** A call returns exactly when every thread number of the team is below
    [num_threads] and no integrator call of the team ends the process. *)
Theorem call_returns_iff rt calls dim m (W : nat) :
  num_threads_of rt = Z.of_nat W ->
  (exists m', parallel_monte_carlo_integration gsl rt calls dim m = Done m')
  <-> Forall (fun t => (t < W)%nat) (omp_team rt)
      /\ forall t, t ∈ omp_team rt ->
           reply_of gsl rt calls dim m t <> VegasAbort.
Proof.
  intros Hn. split.
  - intros [m' Hrun]. unfold parallel_monte_carlo_integration in Hrun.
    destruct (omp_parallel _ _ _) as [m1| |] eqn:E;
      cbn [bind] in Hrun; try discriminate.
    apply (omp_parallel_done_bounded rt calls dim m W) in E; auto.
    cbn [results]. rewrite Hn, Nat2Z.id. apply length_replicate.
  - intros [Hall Hno].
    destruct (decide (W = 0%nat)) as [->|HW].
    + rewrite (pmci_zero gsl) by exact Hn.
      destruct (omp_team rt) as [|t team]; [eauto|].
      apply Forall_cons in Hall as [Ht _]. lia.
    + rewrite (pmci_bounded gsl rt calls dim m W) by assumption.
      rewrite existsb_none; [eauto|].
      intros i Hi. specialize (Hno i Hi).
      destruct (reply_of gsl rt calls dim m i); [reflexivity|congruence].
Qed.

(** One integrator call that ends the process ends the whole call: no mean
    and no error reach the caller, whatever the other threads stored. *)
Theorem abort_ends_call rt calls dim m (W t : nat) :
  num_threads_of rt = Z.of_nat W ->
  Forall (fun i => (i < W)%nat) (omp_team rt) ->
  t ∈ omp_team rt ->
  reply_of gsl rt calls dim m t = VegasAbort ->
  parallel_monte_carlo_integration gsl rt calls dim m = Aborted.
Proof.
  intros Hn Hall Ht Ha.
  assert (HW : W <> 0%nat).
  { rewrite Forall_forall in Hall. specialize (Hall t Ht). lia. }
  rewrite (pmci_bounded gsl rt calls dim m W) by assumption.
  assert (E : existsb (fun i => is_abort (reply_of gsl rt calls dim m i))
                (omp_team rt) = true); [|rewrite E; reflexivity].
  apply existsb_exists. exists t. split.
  - apply list_elem_of_In, Ht.
  - rewrite Ha. reflexivity.
Qed.

(** ** The slots of the team *)

(** The slot of a thread of the team holds what the integrator stored for
    it, and the initial [0.0] when the integrator returned without storing
    (an error status): such a worker enters both sums as zero. *)
Theorem member_slot rt calls dim m (W t : nat) s stored :
  num_threads_of rt = Z.of_nat W ->
  Forall (fun i => (i < W)%nat) (omp_team rt) ->
  (forall i, i ∈ omp_team rt -> reply_of gsl rt calls dim m i <> VegasAbort) ->
  t ∈ omp_team rt ->
  reply_of gsl rt calls dim m t = VegasReturn s stored ->
  exists m',
    parallel_monte_carlo_integration gsl rt calls dim m = Done m'
    /\ results m' !! t = Some (from_option fst 0%float stored)
    /\ errors m' !! t = Some (from_option snd 0%float stored).
Proof.
  intros Hn Hall Hno Ht Hr.
  assert (HtW : (t < W)%nat).
  { rewrite Forall_forall in Hall. apply Hall, Ht. }
  rewrite (pmci_bounded gsl rt calls dim m W) by (auto; lia).
  rewrite existsb_none.
  2:{ intros i Hi. specialize (Hno i Hi).
      destruct (reply_of gsl rt calls dim m i); [reflexivity|congruence]. }
  eexists; split; [reflexivity|]. cbn [results errors combined].
  unfold gathered.
  rewrite !list_lookup_fmap, lookup_seq_lt by exact HtW.
  cbn [fmap option_fmap option_map Nat.add].
  rewrite bool_decide_eq_true_2 by exact Ht.
  rewrite Hr. destruct stored as [[r e]|]; split; reflexivity.
Qed.

(** ** The order of the threads *)

(** The order in which the threads of a team take effect never shows: a
    team numbered below [num_threads] gives the same outcome in every
    order. *)
Theorem team_order_irrelevant rt team' calls dim m (W : nat) :
  num_threads_of rt = Z.of_nat W ->
  Forall (fun t => (t < W)%nat) (omp_team rt) ->
  omp_team rt ≡ₚ team' ->
  parallel_monte_carlo_integration gsl (with_team rt team') calls dim m
  = parallel_monte_carlo_integration gsl rt calls dim m.
Proof.
  intros Hn Hall Hperm.
  assert (Hall' : Forall (fun t => (t < W)%nat) team').
  { rewrite <- Hperm. exact Hall. }
  assert (Hmem : forall i, i ∈ team' <-> i ∈ omp_team rt).
  { intros i. rewrite Hperm. reflexivity. }
  destruct (decide (W = 0%nat)) as [->|HW].
  - rewrite !(pmci_zero gsl) by assumption. cbn [omp_team with_team].
    destruct (omp_team rt) as [|t team].
    + apply Permutation_nil_l in Hperm. subst team'. reflexivity.
    + apply Forall_cons in Hall as [Ht _]. lia.
  - rewrite (pmci_bounded gsl (with_team rt team') calls dim m W),
      (pmci_bounded gsl rt calls dim m W) by assumption.
    cbn [omp_team with_team].
    change (reply_of gsl (with_team rt team') calls dim m)
      with (reply_of gsl rt calls dim m).
    rewrite (existsb_members
               (fun t => is_abort (reply_of gsl rt calls dim m t))
               (fun t => is_abort (reply_of gsl rt calls dim m t))
               team' (omp_team rt) Hmem) by reflexivity.
    rewrite !(gathered_ext _ (reply_of gsl rt calls dim m)
                (reply_of gsl rt calls dim m) team' (omp_team rt) W Hmem)
      by reflexivity.
    reflexivity.
Qed.

End AggregatorProperties.

Lemma status_is_ignored_witness :
  parallel_monte_carlo_integration (one_sample_vegas false) rt4
    (wrap64 N_MC) Dim inverted_cube
  = parallel_monte_carlo_integration
      (with_status GSL_SUCCESS (one_sample_vegas false)) rt4
      (wrap64 N_MC) Dim inverted_cube.
Proof.
  apply (status_is_ignored (one_sample_vegas false)
           (with_status GSL_SUCCESS (one_sample_vegas false))).
  intros c. unfold with_status.
  destruct (one_sample_vegas false c); reflexivity.
Defined.

Lemma outputs_are_overwritten_witness :
  parallel_monte_carlo_integration (one_sample_vegas false) rt4
    (wrap64 N_MC) Dim unit_cube_used
  = parallel_monte_carlo_integration (one_sample_vegas false) rt4
      (wrap64 N_MC) Dim unit_cube.
Proof.
  apply (outputs_are_overwritten (one_sample_vegas false) rt4 (wrap64 N_MC)
           Dim unit_cube_used unit_cube); reflexivity.
Defined.

Lemma call_returns_iff_witness :
  (exists m',
     parallel_monte_carlo_integration (one_sample_vegas false)
       rt2_thread_beyond (wrap64 N_MC) Dim unit_cube = Done m')
  <-> Forall (fun t => (t < 2)%nat) (omp_team rt2_thread_beyond)
      /\ forall t, t ∈ omp_team rt2_thread_beyond ->
           reply_of (one_sample_vegas false) rt2_thread_beyond
             (wrap64 N_MC) Dim unit_cube t <> VegasAbort.
Proof.
  apply (call_returns_iff (one_sample_vegas false) rt2_thread_beyond
           (wrap64 N_MC) Dim unit_cube 2).
  reflexivity.
Defined.

(** A thread number past the vectors: the store is undefined. *)
Example thread_beyond_vectors :
  parallel_monte_carlo_integration (one_sample_vegas false)
    rt2_thread_beyond (wrap64 N_MC) Dim unit_cube = Undefined.
Proof. vm_compute. reflexivity. Qed.

Lemma abort_ends_call_witness :
  parallel_monte_carlo_integration (one_sample_vegas true) rt4
    (wrap64 N_MC) Dim inverted_cube = Aborted.
Proof.
  apply (abort_ends_call (one_sample_vegas true) rt4 (wrap64 N_MC) Dim
           inverted_cube 4 2).
  - reflexivity.
  - repeat constructor.
  - cbn. rewrite !elem_of_cons. auto.
  - vm_compute. reflexivity.
Defined.

Lemma member_slot_witness :
  exists m',
    parallel_monte_carlo_integration (one_sample_vegas false) rt4
      (wrap64 N_MC) Dim inverted_cube = Done m'
    /\ results m' !! 1%nat = Some 0%float
    /\ errors m' !! 1%nat = Some 0%float.
Proof.
  apply (member_slot (one_sample_vegas false) rt4 (wrap64 N_MC) Dim
           inverted_cube 4 1 GSL_EINVAL None).
  - reflexivity.
  - repeat constructor.
  - intros i Hi. cbn in Hi.
    repeat (apply elem_of_cons in Hi as [->|Hi];
            [vm_compute; discriminate|]).
    apply elem_of_nil in Hi. destruct Hi.
  - cbn. rewrite !elem_of_cons. auto.
  - vm_compute. reflexivity.
Defined.

Lemma team_order_irrelevant_witness :
  parallel_monte_carlo_integration (one_sample_vegas false)
    (with_team rt4 [0; 1; 2; 3]%nat) (wrap64 N_MC) Dim unit_cube
  = parallel_monte_carlo_integration (one_sample_vegas false) rt4
      (wrap64 N_MC) Dim unit_cube.
Proof.
  apply (team_order_irrelevant (one_sample_vegas false) rt4
           [0; 1; 2; 3]%nat (wrap64 N_MC) Dim unit_cube 4).
  - reflexivity.
  - repeat constructor.
  - symmetry. change [0; 1; 2; 3]%nat with (seq 0 4). small_team.
Defined.

(** * The partition of the budget *)









Example budget_partition_numbers :
  budgets rt4 10000003 Dim unit_cube = [2500000; 2500000; 2500000; 2500000]
  /\ 10000003 mod 4 = 3
  /\ budgets rt4_team_of_two 10000003 Dim unit_cube = [2500000; 2500000].
Proof. repeat split; reflexivity. Qed.

(** * The budget at its edges *)



(** * More on the seeds *)

Lemma wrap64_bounds z : 0 <= wrap64 z < 2 ^ 64.
Proof. unfold wrap64. apply Z.mod_pos_bound. lia. Qed.

(** One thread that reads the clock twice gets two seeds when the clock has
    moved: for a fixed thread number the seed is one-to-one in the 64-bit
    reading. *)
Theorem seeds_distinct_same_thread c1 c2 thread_id :
  - 2 ^ 63 <= c1 < 2 ^ 63 ->
  - 2 ^ 63 <= c2 < 2 ^ 63 ->
  c1 <> c2 ->
  thread_seed c1 thread_id <> thread_seed c2 thread_id.
Proof.
  intros H1 H2 Hne Heq. unfold thread_seed in Heq.
  rewrite (Z.lxor_comm (wrap64 c1)), (Z.lxor_comm (wrap64 c2)) in Heq.
  apply lxor_cancel_l in Heq. unfold wrap64 in Heq.
  pose proof (Z.div_mod c1 (2 ^ 64)) as D1.
  pose proof (Z.div_mod c2 (2 ^ 64)) as D2.
  pose proof (Z.mod_pos_bound c1 (2 ^ 64)) as B1.
  pose proof (Z.mod_pos_bound c2 (2 ^ 64)) as B2.
  lia.
Qed.

Lemma seeds_distinct_same_thread_witness :
  thread_seed 1700000000000000000 2 <> thread_seed 1700000000000000040 2.
Proof.
  apply (seeds_distinct_same_thread 1700000000000000000 1700000000000000040 2);
    lia.
Defined.

(** * Signs and NaN in binary64 *)

Section Binary64.

Local Open Scope float_scope.

(** ** Values with a clear sign bit *)

Lemma binary_round_aux_sign m e l :
  sf_not_negative (binary_round_aux prec emax false m e l) = true.
Proof.
  unfold binary_round_aux.
  destruct (shr_fexp prec emax m e l) as [mrs' e'].
  destruct (shr_fexp prec emax _ e' loc_Exact) as [mrs'' e''].
  destruct (shr_m mrs''); [reflexivity| |reflexivity].
  destruct (e'' <=? emax - prec)%Z; reflexivity.
Qed.

Lemma binary_round_sign m e :
  sf_not_negative (binary_round prec emax false m e) = true.
Proof.
  unfold binary_round.
  destruct (shl_align _ _ _) as [mz ez]. apply binary_round_aux_sign.
Qed.

Lemma binary_normalize_sign m e :
  (0 <= m)%Z ->
  sf_not_negative (binary_normalize prec emax m e false) = true.
Proof.
  destruct m as [|m|m]; intros Hm; [reflexivity| |lia].
  apply binary_round_sign.
Qed.

Lemma SFmul_square_sign x : sf_not_negative (SFmul prec emax x x) = true.
Proof.
  destruct x as [[]|[]| |[] mx ex]; simpl; try reflexivity;
    apply binary_round_aux_sign.
Qed.

Lemma SFadd_sign x y :
  sf_not_negative x = true -> sf_not_negative y = true ->
  sf_not_negative (SFadd prec emax x y) = true.
Proof.
  destruct x as [[]|[]| |[] mx ex], y as [[]|[]| |[] my ey];
    simpl; intros Hx Hy; try discriminate; try reflexivity.
  apply binary_round_sign.
Qed.

Lemma SFsqrt_sign x :
  sf_not_negative x = true -> sf_not_negative (SFsqrt prec emax x) = true.
Proof.
  destruct x as [[]|[]| |[] mx ex]; simpl; intros Hx;
    try discriminate; try reflexivity.
  destruct (SFsqrt_core_binary _ _ _ _) as [[mz ez] lz].
  apply binary_round_aux_sign.
Qed.

Lemma SFdiv_sign x y :
  sf_not_negative x = true -> sf_not_negative y = true ->
  sf_not_negative (SFdiv prec emax x y) = true.
Proof.
  destruct x as [[]|[]| |[] mx ex], y as [[]|[]| |[] my ey];
    simpl; intros Hx Hy; try discriminate; try reflexivity.
  destruct (SFdiv_core_binary _ _ _ _ _ _) as [[mz ez] lz].
  apply binary_round_aux_sign.
Qed.

Lemma not_negative_ltb x : not_negative x = true -> (x <? 0) = false.
Proof.
  unfold not_negative. rewrite ltb_spec.
  change (Prim2SF 0) with (S754_zero false).
  destruct (Prim2SF x) as [[]|[]| |[] mx ex]; simpl; intros H;
    try discriminate; reflexivity.
Qed.

(** The conversion of an integer below [2^63] is the rounding of that
    integer. *)
Lemma size_t_to_double_spec n :
  (0 <= n < 2 ^ 63)%Z ->
  Prim2SF (size_t_to_double n) = binary_normalize prec emax n 0 false.
Proof.
  intros Hn. unfold size_t_to_double.
  pose proof (of_uint63_spec (Uint63.of_Z n)) as H.
  rewrite Uint63.of_Z_spec, Z.mod_small in H by exact Hn.
  rewrite <- H, SF2Prim_Prim2SF. reflexivity.
Qed.

Lemma sum_sq_not_negative l : forall init,
  not_negative init = true -> not_negative (sum_sq l init) = true.
Proof.
  induction l as [|e l IH]; intros init Hi; [exact Hi|].
  simpl. apply IH. unfold not_negative in *.
  rewrite add_spec, mul_spec.
  apply SFadd_sign; [exact Hi|apply SFmul_square_sign].
Qed.

(** The error a call returns is never below zero: it is NaN, or its sign bit
    is clear.  (The worker errors may be anything: they enter squared.) *)
Theorem error_never_negative gsl rt calls dim m m' :
  (num_threads_of rt < 2 ^ 63)%Z ->
  parallel_monte_carlo_integration gsl rt calls dim m = Done m' ->
  not_negative (error m') = true /\ (error m' <? 0) = false.
Proof.
  intros Hn. unfold parallel_monte_carlo_integration.
  destruct (omp_parallel _ _ _) as [m1| |]; cbn [bind]; try discriminate.
  intros [= <-]. cbn [error].
  assert (H : not_negative
                (PrimFloat.sqrt (sum_sq (errors m1) 0)
                 / size_t_to_double (num_threads_of rt)) = true).
  { unfold not_negative. rewrite div_spec, sqrt_spec.
    apply SFdiv_sign.
    - apply SFsqrt_sign, (sum_sq_not_negative (errors m1) 0). reflexivity.
    - rewrite size_t_to_double_spec
        by (split; [apply wrap64_bounds|exact Hn]).
      apply binary_normalize_sign, wrap64_bounds. }
  split; [exact H|apply not_negative_ltb, H].
Qed.

(** ** Values not below zero *)

Lemma sf_not_negative_not_below x :
  sf_not_negative x = true -> sf_not_below_zero x = true.
Proof. destruct x as [[]|[]| |[] mx ex]; simpl; auto. Qed.

Lemma not_below_zero_ltb x :
  (x <? 0) = false <-> sf_not_below_zero (Prim2SF x) = true.
Proof.
  rewrite ltb_spec. change (Prim2SF 0) with (S754_zero false).
  destruct (Prim2SF x) as [[]|[]| |[] mx ex]; simpl; split;
    intros H; try discriminate; reflexivity.
Qed.

Lemma SFadd_not_below x y :
  sf_not_below_zero x = true -> sf_not_below_zero y = true ->
  sf_not_below_zero (SFadd prec emax x y) = true.
Proof.
  destruct x as [[]|[]| |[] mx ex], y as [[]|[]| |[] my ey];
    simpl; intros Hx Hy; try discriminate; try reflexivity.
  apply sf_not_negative_not_below, binary_round_sign.
Qed.

Lemma SFmul_not_below x y :
  sf_not_below_zero x = true -> sf_not_below_zero y = true ->
  sf_not_below_zero (SFmul prec emax x y) = true.
Proof.
  destruct x as [[]|[]| |[] mx ex], y as [[]|[]| |[] my ey];
    simpl; intros Hx Hy; try discriminate; try reflexivity.
  apply sf_not_negative_not_below, binary_round_aux_sign.
Qed.

(** With no coordinate and no parameter below zero, [f] is not below zero
    (it may be NaN, as for an infinite coordinate and a zero parameter). *)
Theorem f_never_below_zero x y z par :
  (x <? 0) = false -> (y <? 0) = false -> (z <? 0) = false ->
  (p par <? 0) = false -> (q par <? 0) = false ->
  (f x y z par <? 0) = false.
Proof.
  rewrite !not_below_zero_ltb. intros Hx Hy Hz Hp Hq. unfold f.
  rewrite !add_spec, !mul_spec, !add_spec, !mul_spec.
  repeat first [apply SFadd_not_below | apply SFmul_not_below | assumption].
Qed.

Lemma f_never_below_zero_witness :
  (f 0.5 0.25 1 par01 <? 0) = false.
Proof.
  apply (f_never_below_zero 0.5 0.25 1 par01); reflexivity.
Defined.

(** ** NaN *)

Lemma add_nan_r x : x + nan = nan.
Proof.
  apply Prim2SF_inj. rewrite add_spec. change (Prim2SF nan) with S754_nan.
  destruct (Prim2SF x) as [[]|[]| |[] mx ex]; reflexivity.
Qed.

Lemma add_nan_l x : nan + x = nan.
Proof.
  apply Prim2SF_inj. rewrite add_spec. change (Prim2SF nan) with S754_nan.
  reflexivity.
Qed.

Lemma mul_nan_l x : nan * x = nan.
Proof.
  apply Prim2SF_inj. rewrite mul_spec. change (Prim2SF nan) with S754_nan.
  reflexivity.
Qed.

Lemma mul_nan_r x : x * nan = nan.
Proof.
  apply Prim2SF_inj. rewrite mul_spec. change (Prim2SF nan) with S754_nan.
  destruct (Prim2SF x) as [[]|[]| |[] mx ex]; reflexivity.
Qed.

Lemma div_nan_l x : nan / x = nan.
Proof.
  apply Prim2SF_inj. rewrite div_spec. change (Prim2SF nan) with S754_nan.
  reflexivity.
Qed.

(** A NaN coordinate or parameter makes [f] NaN: nothing masks it. *)
Theorem f_nan x y z par :
  x = nan \/ y = nan \/ z = nan \/ p par = nan \/ q par = nan ->
  f x y z par = nan.
Proof.
  unfold f. intros [->|[->|[->|[->| ->]]]];
    rewrite ?add_nan_l, ?add_nan_r, ?mul_nan_l, ?mul_nan_r,
      ?add_nan_l, ?add_nan_r, ?mul_nan_l, ?mul_nan_r, ?add_nan_l, ?add_nan_r;
    reflexivity.
Qed.

Lemma f_nan_witness : f 0.5 nan 1 par01 = nan.
Proof. apply (f_nan 0.5 nan 1 par01). right. left. reflexivity. Defined.

Lemma accumulate_nan_init l : accumulate l nan = nan.
Proof.
  induction l as [|x l IH]; [reflexivity|].
  unfold accumulate in *. simpl. rewrite add_nan_l. exact IH.
Qed.

Lemma accumulate_nan l : forall init, nan ∈ l -> accumulate l init = nan.
Proof.
  induction l as [|x l IH]; intros init Hin.
  - apply elem_of_nil in Hin. destruct Hin.
  - apply elem_of_cons in Hin as [<-|Hin].
    + change (accumulate (nan :: l) init) with (accumulate l (init + nan)).
      rewrite add_nan_r. apply accumulate_nan_init.
    + apply (IH _ Hin).
Qed.

Lemma sum_sq_nan_init l : sum_sq l nan = nan.
Proof.
  induction l as [|x l IH]; [reflexivity|].
  unfold sum_sq in *. simpl. rewrite add_nan_l. exact IH.
Qed.

Lemma sum_sq_nan l : forall init, nan ∈ l -> sum_sq l init = nan.
Proof.
  induction l as [|x l IH]; intros init Hin.
  - apply elem_of_nil in Hin. destruct Hin.
  - apply elem_of_cons in Hin as [<-|Hin].
    + change (sum_sq (nan :: l) init) with (sum_sq l (init + nan * nan)).
      rewrite mul_nan_l, add_nan_r. apply sum_sq_nan_init.
    + apply (IH _ Hin).
Qed.

(** One worker whose mean is NaN makes the combined mean NaN, and one whose
    error is NaN makes the combined error NaN, whatever the other workers
    stored. *)
Theorem nan_worker_poisons gsl rt calls dim m (W t : nat) s r e :
  num_threads_of rt = Z.of_nat W ->
  Forall (fun i => (i < W)%nat) (omp_team rt) ->
  (forall i, i ∈ omp_team rt -> reply_of gsl rt calls dim m i <> VegasAbort) ->
  t ∈ omp_team rt ->
  reply_of gsl rt calls dim m t = VegasReturn s (Some (r, e)) ->
  exists m',
    parallel_monte_carlo_integration gsl rt calls dim m = Done m'
    /\ (r = nan -> result m' = nan)
    /\ (e = nan -> error m' = nan).
Proof.
  intros Hn Hall Hno Ht Hr.
  assert (HtW : (t < W)%nat).
  { rewrite Forall_forall in Hall. apply Hall, Ht. }
  rewrite (pmci_bounded gsl rt calls dim m W) by (auto; lia).
  rewrite existsb_none.
  2:{ intros i Hi. specialize (Hno i Hi).
      destruct (reply_of gsl rt calls dim m i); [reflexivity|congruence]. }
  eexists; split; [reflexivity|]. cbn [result error combined].
  assert (Hslot : forall pick,
            gathered pick (reply_of gsl rt calls dim m) (omp_team rt) W !! t
            = Some (pick (r, e))).
  { intros pick. unfold gathered.
    rewrite list_lookup_fmap, lookup_seq_lt by exact HtW.
    cbn [fmap option_fmap option_map Nat.add].
    rewrite bool_decide_eq_true_2 by exact Ht.
    rewrite Hr. reflexivity. }
  split; intros ->.
  - rewrite accumulate_nan; [apply div_nan_l|].
    apply (list_elem_of_lookup_2 _ t), (Hslot fst).
  - rewrite sum_sq_nan; [apply div_nan_l|].
    apply (list_elem_of_lookup_2 _ t), (Hslot snd).
Qed.

End Binary64.

Lemma error_never_negative_witness :
  exists m',
    parallel_monte_carlo_integration (one_sample_vegas false) rt4
      (wrap64 N_MC) Dim unit_cube = Done m'
    /\ not_negative (error m') = true /\ (error m' <? 0)%float = false.
Proof.
  destruct (parallel_monte_carlo_integration (one_sample_vegas false) rt4
              (wrap64 N_MC) Dim unit_cube) as [m'| |] eqn:E;
    [|vm_compute in E; discriminate..].
  exists m'. split; [reflexivity|].
  apply (error_never_negative (one_sample_vegas false) rt4 (wrap64 N_MC) Dim
           unit_cube m'); [reflexivity|exact E].
Defined.

Lemma nan_worker_poisons_witness :
  exists m',
    parallel_monte_carlo_integration (one_sample_vegas false) rt4
      (wrap64 N_MC) Dim unit_cube_nan = Done m'
    /\ (nan = nan -> result m' = nan)
    /\ (nan = nan -> error m' = nan).
Proof.
  apply (nan_worker_poisons (one_sample_vegas false) rt4 (wrap64 N_MC) Dim
           unit_cube_nan 4 2 GSL_SUCCESS nan nan).
  - reflexivity.
  - repeat constructor.
  - intros i Hi. cbn in Hi.
    repeat (apply elem_of_cons in Hi as [->|Hi];
            [vm_compute; discriminate|]).
    apply elem_of_nil in Hi. destruct Hi.
  - cbn. rewrite !elem_of_cons. auto.
  - vm_compute. reflexivity.
Defined.

(** * The integrand on the unit cube, over the reals *)

Section UnitCube.

Local Open Scope R_scope.

(** With [p] and [q] not negative, [f_real] on the unit cube lies between
    its value [0] at the origin and its value [3 p + 3 q] at the opposite
    corner, and so does its integral [3/2 p + q]. *)
Theorem f_real_bounds x y z p q :
  0 <= x <= 1 -> 0 <= y <= 1 -> 0 <= z <= 1 -> 0 <= p -> 0 <= q ->
  f_real 0 0 0 p q = 0
  /\ f_real 1 1 1 p q = 3 * p + 3 * q
  /\ 0 <= f_real x y z p q <= 3 * p + 3 * q
  /\ 0 <= 3 / 2 * p + q <= 3 * p + 3 * q.
Proof.
  intros Hx Hy Hz Hp Hq. unfold f_real.
  assert (Hs : 0 <= x + y + z <= 3) by lra.
  assert (Hxx : 0 <= x * x <= 1) by nra.
  assert (Hyy : 0 <= y * y <= 1) by nra.
  assert (Hzz : 0 <= z * z <= 1) by nra.
  assert (Hq2 : 0 <= x * x + y * y + z * z <= 3) by lra.
  repeat split; try lra; nra.
Qed.

Lemma f_real_bounds_witness :
  f_real 0 0 0 (1 / 10) (1 / 10) = 0
  /\ f_real 1 1 1 (1 / 10) (1 / 10) = 3 * (1 / 10) + 3 * (1 / 10)
  /\ 0 <= f_real (1 / 2) (1 / 4) 1 (1 / 10) (1 / 10)
     <= 3 * (1 / 10) + 3 * (1 / 10)
  /\ 0 <= 3 / 2 * (1 / 10) + 1 / 10 <= 3 * (1 / 10) + 3 * (1 / 10).
Proof.
  apply (f_real_bounds (1 / 2) (1 / 4) 1 (1 / 10) (1 / 10)); lra.
Defined.

End UnitCube.

(** * The bodies of two threads *)

Section Bodies.

Variable gsl : vegas_call -> vegas_reply.


Lemma store_slots_commute t1 t2 s1 s2 m :
  t1 <> t2 ->
  store_slots t2 s2 (store_slots t1 s1 m)
  = store_slots t1 s1 (store_slots t2 s2 m).
Proof.
  intros Hne. destruct s1 as [[r1 e1]|], s2 as [[r2 e2]|];
    cbn [store_slots xl xu par result error results errors];
    try reflexivity.
  rewrite (list_insert_insert_ne (results m) t2 t1) by congruence.
  rewrite (list_insert_insert_ne (errors m) t2 t1) by congruence.
  reflexivity.
Qed.

Lemma worker_after_store rt calls dim n t t' stored m :
  n <> 0 ->
  (t < length (results m))%nat -> (t < length (errors m))%nat ->
  worker gsl rt calls dim n t (store_slots t' stored m)
  = match gsl (vegas_args rt calls dim n t m) with
    | VegasAbort => Aborted
    | VegasReturn _ stored' =>
        Done (store_slots t stored' (store_slots t' stored m))
    end.
Proof.
  intros Hn Hr He.
  destruct (store_slots_caller t' stored m) as (E1 & E2 & E3 & _).
  destruct (store_slots_lengths t' stored m) as (L1 & L2).
  rewrite (worker_runs_integrator gsl) by (rewrite ?L1, ?L2; assumption).
  rewrite (vegas_args_caller rt calls dim n t m) by assumption.
  reflexivity.
Qed.

(** The bodies of two threads commute: inside the vectors, running one and
    then the other leaves what running them the other way round leaves. *)
Theorem workers_commute rt calls dim n t1 t2 m :
  n <> 0 ->
  (t1 < length (results m))%nat -> (t1 < length (errors m))%nat ->
  (t2 < length (results m))%nat -> (t2 < length (errors m))%nat ->
  (m1 <- worker gsl rt calls dim n t1 m ;;
   worker gsl rt calls dim n t2 m1)
  = (m2 <- worker gsl rt calls dim n t2 m ;;
     worker gsl rt calls dim n t1 m2).
Proof.
  intros Hn R1 E1 R2 E2.
  destruct (decide (t1 = t2)) as [->|Hne]; [reflexivity|].
  rewrite !(worker_runs_integrator gsl) by assumption.
  destruct (gsl (vegas_args rt calls dim n t1 m)) as [s1 st1|] eqn:G1,
           (gsl (vegas_args rt calls dim n t2 m)) as [s2 st2|] eqn:G2;
    cbn [bind]; rewrite ?worker_after_store by assumption;
    rewrite ?G1, ?G2; try reflexivity.
  rewrite (store_slots_commute t1 t2) by exact Hne. reflexivity.
Qed.

Lemma worker_lengths rt calls dim n t m m' :
  worker gsl rt calls dim n t m = Done m' ->
  length (results m') = length (results m)
  /\ length (errors m') = length (errors m).
Proof.
  unfold worker. destruct (n =? 0); [discriminate|].
  destruct (negb _); [discriminate|].
  destruct (gsl _) as [s stored|]; [|discriminate].
  intros [= <-]. apply store_slots_lengths.
Qed.

(** The pair a call returns is the rule applied to the two vectors it
    leaves, which have [num_threads] slots each, whatever the team was. *)
Theorem returned_pair_is_rule_on_slots rt calls dim m m' :
  parallel_monte_carlo_integration gsl rt calls dim m = Done m' ->
  length (results m') = Z.to_nat (num_threads_of rt)
  /\ length (errors m') = Z.to_nat (num_threads_of rt)
  /\ result m' = arithmetic_mean (results m') (num_threads_of rt)
  /\ error m' = root_sum_squares_over_W (errors m') (num_threads_of rt).
Proof.
  unfold parallel_monte_carlo_integration.
  destruct (omp_parallel _ _ _) as [m1| |] eqn:E; cbn [bind];
    try discriminate.
  intros [= <-]. cbn [results errors result error].
  assert (L : forall team a b,
            omp_parallel (worker gsl rt calls dim (num_threads_of rt)) team a
            = Done b ->
            length (results b) = length (results a)
            /\ length (errors b) = length (errors a)).
  { induction team as [|t team IH]; intros a b Hrun.
    - injection Hrun as <-. auto.
    - cbn [omp_parallel] in Hrun.
      destruct (worker gsl rt calls dim (num_threads_of rt) t a)
        as [a'| |] eqn:Hw; cbn [bind] in Hrun; try discriminate.
      apply worker_lengths in Hw as (L1 & L2).
      apply IH in Hrun as (-> & ->). auto. }
  apply L in E as (-> & ->). cbn [results errors].
  rewrite !length_replicate.
  unfold arithmetic_mean, root_sum_squares_over_W, float_sum, accumulate.
  rewrite sum_sq_map. auto.
Qed.

End Bodies.


Lemma workers_commute_witness :
  (m1 <- worker (one_sample_vegas false) rt4 (wrap64 N_MC) Dim 4 0
           unit_cube_slots ;;
   worker (one_sample_vegas false) rt4 (wrap64 N_MC) Dim 4 3 m1)
  = (m2 <- worker (one_sample_vegas false) rt4 (wrap64 N_MC) Dim 4 3
             unit_cube_slots ;;
     worker (one_sample_vegas false) rt4 (wrap64 N_MC) Dim 4 0 m2).
Proof.
  apply (workers_commute (one_sample_vegas false) rt4 (wrap64 N_MC) Dim 4
           0 3 unit_cube_slots); cbn; lia.
Defined.

Lemma returned_pair_is_rule_on_slots_witness :
  exists m',
    parallel_monte_carlo_integration (one_sample_vegas false)
      rt4_team_of_two (wrap64 N_MC) Dim unit_cube = Done m'
    /\ length (results m') = Z.to_nat (num_threads_of rt4_team_of_two)
    /\ length (errors m') = Z.to_nat (num_threads_of rt4_team_of_two)
    /\ result m'
       = arithmetic_mean (results m') (num_threads_of rt4_team_of_two)
    /\ error m'
       = root_sum_squares_over_W (errors m')
           (num_threads_of rt4_team_of_two).
Proof.
  destruct (parallel_monte_carlo_integration (one_sample_vegas false)
              rt4_team_of_two (wrap64 N_MC) Dim unit_cube)
    as [m'| |] eqn:E; [|vm_compute in E; discriminate..].
  exists m'. split; [reflexivity|].
  exact (returned_pair_is_rule_on_slots (one_sample_vegas false)
           rt4_team_of_two (wrap64 N_MC) Dim unit_cube m' E).
Defined.
